(** * Bashfuscator string obfuscators: a shallow embedding

    This development embeds [bashfuscator/lib/string_obfuscators.py]
    (the classes [GlobObfuscator], [FileGlob], [FolderGlob], [HexHash] and
    [XorNonNull]) and proves or refutes properties of that code.

    Modelling conventions.
    - A Python [str] is a list of Unicode code points ([list N]); a
      [bytes]/[bytearray] is a list of byte values ([list N], each below 256).
      [bytearray(s, "utf-8")] and [.decode("utf-8")] are written out.
    - Lengths, indices and counts are [nat].
    - [self] is a record that is threaded explicitly; an exception is a
      [Raise] result; a [while] loop takes fuel, and running out of it is the
      separate result [OutOfFuel].
    - The collaborators that are not part of the module (the random
      generator, the mangler, [escapeQuotes], the digest) are operations of
      the interfaces [RandomGen], [Helpers] and [Digest]. *)

From Stdlib Require Import String Ascii.
From Stdlib Require Import List NArith PeanoNat Lia Bool.
Import ListNotations.

Set Implicit Arguments.

(** ** Python values and primitives *)

Module Py.

Definition str := list N.
Definition bytes := list N.

(** A literal of the source text. *)
Definition lit (s : string) : str :=
  map N_of_ascii (list_ascii_of_string s).

Inductive exn :=
| ValueError | TypeError | IndexError | AttributeError
| UnboundLocalError | UnicodeDecodeError | UnicodeEncodeError
| ZeroDivisionError.

Inductive res (A : Type) :=
| Ok (a : A)
| Raise (e : exn)
| OutOfFuel.
Arguments Ok {A} a.
Arguments Raise {A} e.
Arguments OutOfFuel {A}.

Definition bind {A B} (m : res A) (k : A -> res B) : res B :=
  match m with
  | Ok a => k a
  | Raise e => Raise e
  | OutOfFuel => OutOfFuel
  end.

(** [range(start, stop, step)] for a positive [step]; [fuel] bounds the
    number of elements and [stop] is always enough. *)
Fixpoint range_from (fuel start stop step : nat) : list nat :=
  match fuel with
  | O => []
  | S f =>
      if start <? stop
      then start :: range_from f (start + step) stop step
      else []
  end.

Definition range3 (start stop step : nat) : list nat :=
  range_from stop start stop step.

(** [s[i:j]] for [0 <= i], [0 <= j]. *)
Definition slice {A} (s : list A) (i j : nat) : list A :=
  firstn (j - i) (skipn i s).

(** [s[i::k]] for a positive [k]: the elements at [i], [i+k], [i+2k], ... *)
Definition stride {A} (s : list A) (i k : nat) : list A :=
  flat_map (fun j => firstn 1 (skipn j s)) (range3 i (length s) k).

(** [x in s] for a character and a list or set of characters. *)
Definition mem (c : N) (s : list N) : bool := existsb (N.eqb c) s.

(** [set(s)], kept as the list of its distinct elements. *)
Fixpoint set_of (s : list N) : list N :=
  match s with
  | [] => []
  | c :: s' => if mem c s' then set_of s' else c :: set_of s'
  end.

(** [l.remove(c)]: drops the first occurrence. *)
Fixpoint remove1 (c : N) (l : list N) : list N :=
  match l with
  | [] => []
  | x :: l' => if N.eqb c x then l' else x :: remove1 c l'
  end.

(** [s.replace(a, b)] for one-character [a] and [b]. *)
Definition replace1 (a b : N) (s : str) : str :=
  map (fun c => if N.eqb c a then b else c) s.

(** [a in s] for strings: substring test, and [s.find(a)]. *)
Fixpoint prefixb (a s : str) : bool :=
  match a, s with
  | [], _ => true
  | _ :: _, [] => false
  | x :: a', y :: s' => N.eqb x y && prefixb a' s'
  end.

Fixpoint find_from (a s : str) (pos : nat) : option nat :=
  if prefixb a s then Some pos
  else match s with
       | [] => None
       | _ :: s' => find_from a s' (S pos)
       end.

Definition find (s a : str) : option nat := find_from a s 0.

Definition contains (a s : str) : bool :=
  match find s a with Some _ => true | None => false end.

(** Binary digits of a positive number, most significant first:
    [format(i, "b")]. *)
Fixpoint bin_pos (p : positive) : str :=
  match p with
  | xH => [49%N]
  | xO q => bin_pos q ++ [48%N]
  | xI q => bin_pos q ++ [49%N]
  end.

Definition bin (i : nat) : str :=
  match N.of_nat i with
  | N0 => [48%N]
  | Npos p => bin_pos p
  end.

(** [format(i, "0" + str(w) + "b")]: zero-padded on the left to at least
    [w] digits. *)
Definition format_0b (i w : nat) : str :=
  repeat 48%N (w - length (bin i)) ++ bin i.

(** [str(n)] for a natural number. *)
Fixpoint dec_digits (fuel n : nat) (acc : str) : str :=
  match fuel with
  | O => acc
  | S f =>
      let acc' := N.of_nat (48 + n mod 10) :: acc in
      if n / 10 =? 0 then acc' else dec_digits f (n / 10) acc'
  end.

Definition str_of_nat (n : nat) : str := dec_digits (S n) n [].

(** [math.ceil(math.log(n, 2))] for [n >= 1]: the least [k] with
    [n <= 2^k].  [math.log] raises [ValueError] at 0.  The floating-point
    quotient of the source is taken at its exact value, with which it
    agrees on every count below [2^29]; at [2^29] the quotient of the
    source is 29.000000000000004 and its ceiling 30, where the exact
    value is 29.  The statements on the index width of the claims C2 and
    C6 are therefore made for counts below [2^29]. *)
Fixpoint ceil_log2_from (fuel n k p : nat) : nat :=
  match fuel with
  | O => k
  | S f => if n <=? p then k else ceil_log2_from f n (S k) (2 * p)
  end.

Definition ceil_log2 (n : nat) : res nat :=
  if n =? 0 then Raise ValueError else Ok (ceil_log2_from n n 0 1).

(** [bytes(s, "utf-8")]. *)
Definition utf8_char (c : N) : res bytes :=
  if (c <? 128)%N then Ok [c]
  else if (c <? 2048)%N then
    Ok [N.lor 192 (N.shiftr c 6); N.lor 128 (N.land c 63)]
  else if (55296 <=? c)%N && (c <? 57344)%N then Raise UnicodeEncodeError
  else if (c <? 65536)%N then
    Ok [N.lor 224 (N.shiftr c 12);
        N.lor 128 (N.land (N.shiftr c 6) 63);
        N.lor 128 (N.land c 63)]
  else
    Ok [N.lor 240 (N.shiftr c 18);
        N.lor 128 (N.land (N.shiftr c 12) 63);
        N.lor 128 (N.land (N.shiftr c 6) 63);
        N.lor 128 (N.land c 63)].

Fixpoint utf8 (s : str) : res bytes :=
  match s with
  | [] => Ok []
  | c :: s' =>
      bind (utf8_char c) (fun b => bind (utf8 s') (fun bs => Ok (b ++ bs)))
  end.

(** [b.decode("utf-8")], strict. *)
Definition cont (b : N) : bool := (128 <=? b)%N && (b <? 192)%N.

Definition between (lo b hi : N) : bool := (lo <=? b)%N && (b <=? hi)%N.

Fixpoint utf8_decode_fuel (fuel : nat) (b : bytes) : res str :=
  match fuel with
  | O => match b with [] => Ok [] | _ => Raise UnicodeDecodeError end
  | S f =>
      match b with
      | [] => Ok []
      | b0 :: r =>
          if (b0 <? 128)%N then
            bind (utf8_decode_fuel f r) (fun s => Ok (b0 :: s))
          else if between 194 b0 223 then
            match r with
            | b1 :: r' =>
                if cont b1 then
                  bind (utf8_decode_fuel f r') (fun s =>
                    Ok (N.lor (N.shiftl (N.land b0 31) 6) (N.land b1 63) :: s))
                else Raise UnicodeDecodeError
            | _ => Raise UnicodeDecodeError
            end
          else if between 224 b0 239 then
            match r with
            | b1 :: b2 :: r' =>
                if between (if N.eqb b0 224 then 160 else 128) b1
                           (if N.eqb b0 237 then 159 else 191)
                   && cont b2
                then
                  bind (utf8_decode_fuel f r') (fun s =>
                    Ok (N.lor (N.shiftl (N.land b0 15) 12)
                          (N.lor (N.shiftl (N.land b1 63) 6) (N.land b2 63))
                        :: s))
                else Raise UnicodeDecodeError
            | _ => Raise UnicodeDecodeError
            end
          else if between 240 b0 244 then
            match r with
            | b1 :: b2 :: b3 :: r' =>
                if between (if N.eqb b0 240 then 144 else 128) b1
                           (if N.eqb b0 244 then 143 else 191)
                   && cont b2 && cont b3
                then
                  bind (utf8_decode_fuel f r') (fun s =>
                    Ok (N.lor (N.shiftl (N.land b0 7) 18)
                          (N.lor (N.shiftl (N.land b1 63) 12)
                             (N.lor (N.shiftl (N.land b2 63) 6)
                                    (N.land b3 63)))
                        :: s))
                else Raise UnicodeDecodeError
            | _ => Raise UnicodeDecodeError
            end
          else Raise UnicodeDecodeError
      end
  end.

Definition utf8_decode (b : bytes) : res str :=
  utf8_decode_fuel (length b) b.

(** [int.from_bytes(b, byteorder='big')]. *)
Definition from_bytes_big (b : bytes) : N :=
  fold_left (fun acc x => (acc * 256 + x)%N) b 0%N.

(** [b.hex()]: two lower-case digits per byte. *)
Definition hex_digit (d : N) : N :=
  if (d <? 10)%N then (48 + d)%N else (87 + d)%N.

Definition hex (b : bytes) : str :=
  flat_map (fun x => [hex_digit (N.div x 16); hex_digit (N.modulo x 16)]) b.

(** A dict of template lines, in insertion order; [d.update({k: v})]. *)
Definition dict := list (str * option str).

Fixpoint update (d : dict) (k : str) (v : option str) : dict :=
  match d with
  | [] => [(k, v)]
  | (k', v') :: d' =>
      if list_eq_dec N.eq_dec k k' then (k', v) :: d'
      else (k', v') :: update d' k v
  end.

Definition ascii_str (s : str) : Prop := Forall (fun c => (c < 128)%N) s.

End Py.

Import Py.

Notation "x <- m ;; k" := (bind m (fun x => k))
  (at level 61, m at next level, right associativity).
Notation "' pat <- m ;; k" := (bind m (fun x => match x with pat => k end))
  (at level 61, pat pattern, m at next level, right associativity).

(** ** Collaborators of the module *)

(** [bashfuscator.common.random]: the generator behind [self.randGen].  Its
    state is threaded explicitly. *)
Class RandomGen := {
  rng : Type;
  randUniqueStr : rng -> str * rng;
  randGenStr : option nat -> option nat -> rng -> str * rng;
  randGenVar : rng -> str * rng;
  randSelect : list N -> rng -> N * rng;
  _randStrCharList : list N
}.

(** What the module relies on: a string asked for with equal bounds has that
    length, random strings are drawn from the character list,
    [randSelect] returns an element of its argument, and the character list
    is a set of single-byte characters. *)
Class RandomGenLaws (R : RandomGen) := {
  randGenStr_length :
    forall n g, length (fst (randGenStr (Some n) (Some n) g)) = n;
  randGenStr_chars :
    forall a b g,
      Forall (fun c => In c _randStrCharList) (fst (randGenStr a b g));
  randSelect_In :
    forall l g, l <> [] -> In (fst (randSelect l g)) l;
  charList_ascii : ascii_str _randStrCharList;
  charList_NoDup : NoDup _randStrCharList
}.

(** The calls received by [self.mangler], in the order they are made.
    [addLinesInRandomOrder] takes a dict of lines and data, or a list of
    lines, which is kept as a dict without data. *)
Inductive mcall :=
| addPayloadLine (line : str)
| addLinesInRandomOrder (lines : dict)
| addJunk.

(** [escapeQuotes] of [bashfuscator.common.helpers] and the mangler's
    [getFinalPayload]. *)
Class Helpers := {
  escapeQuotes : str -> str;
  getFinalPayload : list mcall -> str
}.

(** [md5(s).hexdigest()] of [hashlib], on bytes. *)
Class Digest := {
  md5_hexdigest : bytes -> str
}.

(** The attributes of an obfuscator object that the module reads or writes. *)
Record Self {R : RandomGen} := mkSelf {
  sizePref : nat;
  writeDir : str;
  sectionSize : option nat;
  startingDir : option str;
  workingDir : option str;
  randGen : rng;
  mangler : list mcall
}.
Arguments mkSelf {R} _ _ _ _ _ _ _.

Section SelfUpdates.
Context {R : RandomGen}.

Definition set_sectionSize (self : Self) (v : nat) : Self :=
  mkSelf (sizePref self) (writeDir self) (Some v) (startingDir self)
         (workingDir self) (randGen self) (mangler self).

Definition set_startingDir (self : Self) (v : str) : Self :=
  mkSelf (sizePref self) (writeDir self) (sectionSize self) (Some v)
         (workingDir self) (randGen self) (mangler self).

Definition set_workingDir (self : Self) (v : str) : Self :=
  mkSelf (sizePref self) (writeDir self) (sectionSize self)
         (startingDir self) (Some v) (randGen self) (mangler self).

Definition set_randGen (self : Self) (g : rng) : Self :=
  mkSelf (sizePref self) (writeDir self) (sectionSize self)
         (startingDir self) (workingDir self) g (mangler self).

(** One more call to the mangler. *)
Definition call (self : Self) (c : mcall) : Self :=
  mkSelf (sizePref self) (writeDir self) (sectionSize self)
         (startingDir self) (workingDir self) (randGen self)
         (mangler self ++ [c]).

(** Reading an attribute that may still be [None] or unset. *)
Definition attr {A} (v : option A) (e : exn) : res A :=
  match v with Some a => Ok a | None => Raise e end.

End SelfUpdates.

(** ** GlobObfuscator *)

Module GlobObfuscator.
Section WithCollaborators.
Context {R : RandomGen} {H : Helpers}.

(** [[userCmd[i:i + sectionSize] for i in range(0, len(userCmd), sectionSize)]] *)
Definition chunks (userCmd : str) (sectionSize : nat) : list str :=
  map (fun i => slice userCmd i (i + sectionSize))
      (range3 0 (length userCmd) sectionSize).

(** [format(i, "0" + str(cmdLogLen) + "b").replace("0", "?").replace("1", "\n")] *)
Definition fileName (i cmdLogLen : nat) : str :=
  replace1 49 10 (replace1 48 63 (format_0b i cmdLogLen)).

Definition printfLine (workingDir : str) (i cmdLogLen : nat) : str :=
  lit "* *:printf:^ ^%s^ ^'DATA'? ?>? ?'" ++ workingDir ++ lit "/"
    ++ fileName i cmdLogLen ++ lit "'* *END0".

Definition mkdirLine (workingDir : str) : str :=
  lit "* *:mkdir:^ ^-p^ ^'" ++ workingDir ++ lit "'* *END0".

Definition catLine (workingDir : str) (cmdLogLen : nat) : str :=
  lit "* *:cat:^ ^'" ++ workingDir ++ lit "'/" ++ repeat 63%N cmdLogLen
    ++ lit "* *END0".

Definition rmLine (workingDir : str) (cmdLogLen : nat) : str :=
  lit "* *:rm:^ ^'" ++ workingDir ++ lit "'/" ++ repeat 63%N cmdLogLen
    ++ lit "* *END0".

(** The loop of lines 84-90 that fills [printLines]. *)
Definition printLines (workingDir : str) (cmdChars : list str)
    (cmdLogLen : nat) : dict :=
  fold_left
    (fun d i =>
       update d (printfLine workingDir i cmdLogLen)
              (Some (escapeQuotes (nth i cmdChars []))))
    (seq 0 (length cmdChars)) [].

(** [cmdLogLen] of lines 79-81. *)
Definition indexWidth (cmdLen : nat) : res nat :=
  l <- ceil_log2 cmdLen ;;
  Ok (if l <=? 0 then 1 else l).

Definition generate (self : Self) (userCmd : str)
    (writeableDir : option str) : res Self :=
  sd <- attr (startingDir self) AttributeError ;;
  let wd :=
    match writeableDir with
    | Some ((_ :: _) as d) => sd ++ lit "/" ++ escapeQuotes d
    | _ => sd
    end in
  let self := set_workingDir self wd in
  ss <- attr (sectionSize self) TypeError ;;
  if ss =? 0 then Raise ValueError else
  let cmdChars := chunks userCmd ss in
  let cmdLen := length cmdChars in
  cmdLogLen <- indexWidth cmdLen ;;
  let self := call self (addPayloadLine (mkdirLine wd)) in
  let self :=
    call self (addLinesInRandomOrder (printLines wd cmdChars cmdLogLen)) in
  let self := call self (addPayloadLine (catLine wd cmdLogLen)) in
  Ok (call self (addPayloadLine (rmLine wd cmdLogLen))).

Definition setSizes (self : Self) (userCmd : str) : Self :=
  let self :=
    if sizePref self =? 1 then
      set_sectionSize self (length userCmd / 10 + 1)
    else if sizePref self =? 2 then
      set_sectionSize self (length userCmd / 100 + 1)
    else if sizePref self =? 3 then
      set_sectionSize self 1
    else self in
  let (u, g) := randUniqueStr (randGen self) in
  set_startingDir (set_randGen self g) (escapeQuotes (writeDir self ++ u)).

End WithCollaborators.
End GlobObfuscator.

(** ** FileGlob *)

Module FileGlob.
Section WithCollaborators.
Context {R : RandomGen} {H : Helpers}.
Import GlobObfuscator.

Definition rmdirLine (workingDir : str) : str :=
  lit "* *:rmdir:^ ^'" ++ workingDir ++ lit "'END0* *".

Definition mutate (self : Self) (userCmd : str) : res (str * Self) :=
  let self := setSizes self userCmd in
  self <- generate self userCmd None ;;
  wd <- attr (workingDir self) AttributeError ;;
  let self := call self (addPayloadLine (rmdirLine wd)) in
  Ok (getFinalPayload (mangler self), self).

End WithCollaborators.
End FileGlob.

(** ** FolderGlob *)

Module FolderGlob.
Section WithCollaborators.
Context {R : RandomGen} {H : Helpers}.
Import GlobObfuscator.

Definition rmdirChunkLine (workingDir : str) : str :=
  lit "* *:rmdir:^ ^'" ++ workingDir ++ lit "'END0".

Definition rmdirLine (startingDir : str) : str :=
  lit "* *:rmdir:^ ^'" ++ startingDir ++ lit "'END0* *".

(** The body of the loop of lines 142-144, for one chunk. *)
Definition stageChunk (self : Self) (chunk : str) : res Self :=
  let (u, g) := randUniqueStr (randGen self) in
  self <- generate (set_randGen self g) chunk (Some u) ;;
  wd <- attr (workingDir self) AttributeError ;;
  Ok (call self (addPayloadLine (rmdirChunkLine wd))).

Fixpoint stageChunks (self : Self) (cmdChunks : list str) : res Self :=
  match cmdChunks with
  | [] => Ok self
  | chunk :: rest =>
      self <- stageChunk self chunk ;;
      stageChunks self rest
  end.

Definition mutate (self : Self) (userCmd : str) : res (str * Self) :=
  let self := setSizes self userCmd in
  ss <- attr (sectionSize self) TypeError ;;
  if ss =? 0 then Raise ValueError else
  let cmdChunks := chunks userCmd ss in
  self <- stageChunks self cmdChunks ;;
  sd <- attr (startingDir self) AttributeError ;;
  let self := call self (addPayloadLine (rmdirLine sd)) in
  Ok (getFinalPayload (mangler self), self).

End WithCollaborators.
End FolderGlob.

(** ** HexHash *)

Module HexHash.
Section WithCollaborators.
Context {R : RandomGen} {H : Helpers} {D : Digest}.

Definition dq : str := [34%N].

(** [str(bytes(ch, "utf-8").hex())] *)
Definition hexchar (ch : N) : res str :=
  b <- utf8_char ch ;; Ok (hex b).

(** The [while] loop of lines 167-171, entered with the current
    [randomString] (unset at first) and [randomhash]. *)
Fixpoint search (fuel : nat) (hexchar : str) (randomString : option str)
    (randomhash : str) (g : rng) : res (option str * str * rng) :=
  if contains hexchar randomhash then Ok (randomString, randomhash, g)
  else
    match fuel with
    | O => OutOfFuel
    | S f =>
        let (s, g) := randGenStr None None g in
        b <- utf8 s ;;
        search f hexchar (Some s) (md5_hexdigest b) g
    end.

(** [randomhash.find(hexchar)], then [index + 1] and [index + 2]; [find]
    gives -1 when there is no occurrence. *)
Definition cutRange (randomhash hexchar : str) : nat * nat :=
  match find randomhash hexchar with
  | Some index => (index + 1, index + 2)
  | None => (0, 1)
  end.

Definition payloadLine (randomString : str) (lo hi : nat) : str :=
  lit "* *:printf:^ ^" ++ dq ++ lit "\x$(:printf:^ ^%s^ ^'" ++ randomString
    ++ lit "'* *|* *:md5sum:* *|* *:cut:^ ^-b^ ^" ++ str_of_nat lo
    ++ lit "-" ++ str_of_nat hi ++ lit "* *)" ++ dq ++ lit "* *END0".

(** The body of the [for] loop, for one character. *)
Definition encodeChar (fuel : nat) (self : Self) (ch : N) : res Self :=
  hx <- hexchar ch ;;
  '(rs, randomhash, g) <- search fuel hx None [] (randGen self) ;;
  randomString <- attr rs UnboundLocalError ;;
  let (lo, hi) := cutRange randomhash hx in
  Ok (call (set_randGen self g)
           (addPayloadLine (payloadLine randomString lo hi))).

Fixpoint encodeChars (fuel : nat) (self : Self) (userCmd : str)
    : res Self :=
  match userCmd with
  | [] => Ok self
  | ch :: rest =>
      self <- encodeChar fuel self ch ;;
      encodeChars fuel self rest
  end.

Definition mutate (fuel : nat) (self : Self) (userCmd : str)
    : res (str * Self) :=
  self <- encodeChars fuel self userCmd ;;
  let self := call self addJunk in
  Ok (getFinalPayload (mangler self), self).

End WithCollaborators.
End HexHash.

(** ** XorNonNull *)

Module XorNonNull.
Section WithCollaborators.
Context {R : RandomGen} {H : Helpers}.

Definition dq : str := [34%N].

(** [b[i] = v] on a bytearray. *)
Fixpoint set_nth (b : bytes) (i : nat) (v : N) : bytes :=
  match b, i with
  | [], _ => []
  | _ :: r, O => v :: r
  | x :: r, S j => x :: set_nth r j v
  end.

(** The loop of lines 202-204: every character of [nullchars] that is in the
    black list is removed from it. *)
Definition strike (nullchars bl : list N) : list N :=
  fold_left (fun bl char => if mem char bl then remove1 char bl else bl)
            nullchars bl.

(** Lines 200-204, starting from a copy of the character list. *)
Definition charBlackList (nullchars : list N) : list N :=
  strike nullchars _randStrCharList.

(** The [for] loop of lines 196-213 over the remaining positions. *)
Fixpoint fixKey (userCmd : str) (keyLen : nat) (positions : list nat)
    (xorKeyBytes : bytes) (g : rng) : res (option bytes * rng) :=
  match positions with
  | [] => Ok (Some xorKeyBytes, g)
  | i :: rest =>
      let nullchars := set_of (stride userCmd i keyLen) in
      b <- attr (nth_error xorKeyBytes i) IndexError ;;
      if mem b nullchars then
        let bl := charBlackList nullchars in
        if 0 <? length bl then
          let (c, g) := randSelect bl g in
          enc <- utf8_char c ;;
          let v := from_bytes_big enc in
          if (v <? 256)%N
          then fixKey userCmd keyLen rest (set_nth xorKeyBytes i v) g
          else Raise ValueError
        else Ok (None, g)
      else fixKey userCmd keyLen rest xorKeyBytes g
  end.

Definition genXorKey (g : rng) (keyLen : nat) (userCmd : str)
    : res (option bytes * rng) :=
  let (s, g) := randGenStr (Some keyLen) (Some keyLen) g in
  xorKeyBytes <- utf8 s ;;
  fixKey userCmd keyLen (seq 0 keyLen) xorKeyBytes g.

(** Lines 225-230. *)
Definition initKeyLen (sizePref : nat) (userCmd : str) : res nat :=
  if sizePref =? 1 then Ok (length userCmd / 100 + 1)
  else if sizePref =? 2 then Ok (length userCmd / 10 + 1)
  else if sizePref =? 3 then Ok (length userCmd)
  else Raise UnboundLocalError.

(** The result of one run of the retry loop: the final [keyLen], the key,
    the generator, and (not in the source) the lengths that were tried,
    in order. *)
Record found := mkFound {
  keyLen_of : nat;
  key_of : bytes;
  rng_of : rng;
  tried_of : list nat
}.

(** The [while not xorKeyBytes] loop of lines 233-235.  [None] and the
    empty bytearray are both false. *)
Fixpoint keySearch (fuel keyLen : nat) (userCmd : str) (g : rng)
    (tried : list nat) : res found :=
  match fuel with
  | O => OutOfFuel
  | S f =>
      let keyLen := keyLen + 1 in
      '(k, g) <- genXorKey g keyLen userCmd ;;
      match k with
      | Some ((_ :: _) as key) => Ok (mkFound keyLen key g (tried ++ [keyLen]))
      | _ => keySearch f keyLen userCmd g (tried ++ [keyLen])
      end
  end.

(** Lines 238-239: [cmdBytes[i] ^= xorKeyBytes[i % keyLen]] for the given
    positions. *)
Fixpoint xorLoop (positions : list nat) (cmdBytes xorKeyBytes : bytes)
    (keyLen : nat) : res bytes :=
  match positions with
  | [] => Ok cmdBytes
  | i :: rest =>
      c <- attr (nth_error cmdBytes i) IndexError ;;
      if keyLen =? 0 then Raise ZeroDivisionError else
      k <- attr (nth_error xorKeyBytes (i mod keyLen)) IndexError ;;
      xorLoop rest (set_nth cmdBytes i (N.lxor c k)) xorKeyBytes keyLen
  end.

(** Lines 237-239. *)
Definition xorBytes (userCmd : str) (xorKeyBytes : bytes) (keyLen : nat)
    : res bytes :=
  cmdBytes <- utf8 userCmd ;;
  xorLoop (seq 0 (length userCmd)) cmdBytes xorKeyBytes keyLen.

Definition forLine (iteratorVar cmdVar : str) : str :=
  lit "? ?for^ ^((* *" ++ iteratorVar ++ lit "=0* *;* *" ++ iteratorVar
    ++ lit "* *<* *${#" ++ cmdVar ++ lit "}* *;* *" ++ iteratorVar
    ++ lit "* *++* *))? ?END".

Definition doLine (cmdCharVar cmdVar iteratorVar : str) : str :=
  lit "? ?do^ ^" ++ cmdCharVar ++ lit "=" ++ dq ++ lit "${" ++ cmdVar
    ++ lit ":$" ++ iteratorVar ++ lit ":1? ?}" ++ dq ++ lit "* *END0".

Definition keyIndexLine (keyCharVar iteratorVar keyVar : str) : str :=
  lit "? ?" ++ keyCharVar ++ lit "=" ++ dq ++ lit "$((* *" ++ iteratorVar
    ++ lit "* * %* *${#" ++ keyVar ++ lit "}* *))" ++ dq ++ lit "* *END0".

Definition keyCharLine (keyCharVar keyVar : str) : str :=
  lit "? ?" ++ keyCharVar ++ lit "=" ++ dq ++ lit "${" ++ keyVar
    ++ lit ":$" ++ keyCharVar ++ lit ":1}" ++ dq ++ lit "* *END0".

Definition quoteGuard (v : str) : str :=
  lit "? ?[[^ ^" ++ dq ++ lit "$" ++ v ++ dq ++ lit "^ ^==^ ^" ++ dq
    ++ lit "'" ++ dq ++ lit "^ ^]]? ?&&? ?" ++ v ++ lit "=" ++ dq
    ++ lit "\\'" ++ dq ++ lit "* *END".

Definition backslashGuard (v : str) : str :=
  lit "? ?[[^ ^" ++ dq ++ lit "$" ++ v ++ dq ++ lit "^ ^==^ ^" ++ dq
    ++ lit "\\" ++ dq ++ lit "^ ^]]? ?&&? ?" ++ v ++ lit "='\\'* *END".

Definition perlLine (cmdCharVar keyCharVar : str) : str :=
  lit "? ?:perl:^ ^-e^ ^" ++ dq ++ lit "? ?print^ ^'$" ++ cmdCharVar
    ++ lit "'? ?^? ?'$" ++ keyCharVar ++ lit "'? ?" ++ dq ++ lit "* *END".

Definition mutate (fuel : nat) (self : Self) (userCmd : str)
    : res (str * Self) :=
  let (cmdVar, g) := randGenVar (randGen self) in
  let (keyVar, g) := randGenVar g in
  let (cmdCharVar, g) := randGenVar g in
  let (keyCharVar, g) := randGenVar g in
  let (iteratorVar, g) := randGenVar g in
  keyLen <- initKeyLen (sizePref self) userCmd ;;
  fnd <- keySearch fuel keyLen userCmd g [] ;;
  let keyLen := keyLen_of fnd in
  let xorKeyBytes := key_of fnd in
  cmdBytes <- xorBytes userCmd xorKeyBytes keyLen ;;
  k <- utf8_decode xorKeyBytes ;;
  let xorKey := escapeQuotes k in
  d <- utf8_decode cmdBytes ;;
  let data := escapeQuotes d in
  let variableInstantiations :=
    update
      (update [] (lit "? ?" ++ cmdVar ++ lit "='DATA'* *END0") (Some data))
      (lit "? ?" ++ keyVar ++ lit "='" ++ xorKey ++ lit "'* *END0") None in
  let self := set_randGen self (rng_of fnd) in
  let self := call self (addLinesInRandomOrder variableInstantiations) in
  let self := call self (addPayloadLine (forLine iteratorVar cmdVar)) in
  let self :=
    call self (addPayloadLine (doLine cmdCharVar cmdVar iteratorVar)) in
  let self :=
    call self
         (addPayloadLine (keyIndexLine keyCharVar iteratorVar keyVar)) in
  let self := call self (addPayloadLine (keyCharLine keyCharVar keyVar)) in
  let perlEscapes :=
    [(quoteGuard cmdCharVar, None); (quoteGuard keyCharVar, None);
     (backslashGuard cmdCharVar, None); (backslashGuard keyCharVar, None)] in
  let self := call self (addLinesInRandomOrder perlEscapes) in
  let self := call self (addPayloadLine (perlLine cmdCharVar keyCharVar)) in
  let self := call self (addPayloadLine (lit "? ?done? ?END0")) in
  Ok (getFinalPayload (mangler self), self).

End WithCollaborators.
End XorNonNull.


(** ** MD5 (RFC 1321), the digest behind [hashlib.md5] *)

Module MD5.

Definition mask32 : N := 4294967295.

Definition add32 (a b : N) : N := N.land (a + b) mask32.

Definition not32 (a : N) : N := N.lxor a mask32.

Definition rotl32 (x s : N) : N :=
  N.land (N.lor (N.shiftl x s) (N.shiftr x (32 - s))) mask32.

Definition K : list N :=
  [3614090360; 3905402710; 606105819; 3250441966; 4118548399; 1200080426;
   2821735955; 4249261313; 1770035416; 2336552879; 4294925233; 2304563134;
   1804603682; 4254626195; 2792965006; 1236535329; 4129170786; 3225465664;
   643717713; 3921069994; 3593408605; 38016083; 3634488961; 3889429448;
   568446438; 3275163606; 4107603335; 1163531501; 2850285829; 4243563512;
   1735328473; 2368359562; 4294588738; 2272392833; 1839030562; 4259657740;
   2763975236; 1272893353; 4139469664; 3200236656; 681279174; 3936430074;
   3572445317; 76029189; 3654602809; 3873151461; 530742520; 3299628645;
   4096336452; 1126891415; 2878612391; 4237533241; 1700485571; 2399980690;
   4293915773; 2240044497; 1873313359; 4264355552; 2734768916; 1309151649;
   4149444226; 3174756917; 718787259; 3951481745]%N.

Definition shifts : list N :=
  [7; 12; 17; 22; 7; 12; 17; 22; 7; 12; 17; 22; 7; 12; 17; 22;
   5; 9; 14; 20; 5; 9; 14; 20; 5; 9; 14; 20; 5; 9; 14; 20;
   4; 11; 16; 23; 4; 11; 16; 23; 4; 11; 16; 23; 4; 11; 16; 23;
   6; 10; 15; 21; 6; 10; 15; 21; 6; 10; 15; 21; 6; 10; 15; 21]%N.

(** Little-endian number of a few bytes, and the bytes of a number. *)
Definition of_le (b : bytes) : N :=
  fold_right (fun x acc => (x + 256 * acc)%N) 0%N b.

Fixpoint to_le (n : nat) (x : N) : bytes :=
  match n with
  | O => []
  | S m => N.land x 255 :: to_le m (N.shiftr x 8)
  end.

Fixpoint words (n : nat) (b : bytes) : list N :=
  match n with
  | O => []
  | S m => of_le (firstn 4 b) :: words m (skipn 4 b)
  end.

Definition pad (msg : bytes) : bytes :=
  msg ++ [128%N] ++ repeat 0%N ((119 - length msg mod 64) mod 64)
      ++ to_le 8 (8 * N.of_nat (length msg)).

Definition state := (N * N * N * N)%type.

Definition round (M : list N) (st : state) (i : nat) : state :=
  let '(a, b, c, d) := st in
  let '(f, g) :=
    if i <? 16 then (N.lor (N.land b c) (N.land (not32 b) d), i)
    else if i <? 32 then
      (N.lor (N.land d b) (N.land (not32 d) c), (5 * i + 1) mod 16)
    else if i <? 48 then (N.lxor b (N.lxor c d), (3 * i + 5) mod 16)
    else (N.lxor c (N.lor b (not32 d)), (7 * i) mod 16) in
  let f := add32 (add32 (add32 f a) (nth i K 0%N)) (nth g M 0%N) in
  (d, add32 b (rotl32 f (nth i shifts 0%N)), b, c).

Definition block (st : state) (chunk : bytes) : state :=
  let '(a0, b0, c0, d0) := st in
  let '(a, b, c, d) := fold_left (round (words 16 chunk)) (seq 0 64) st in
  (add32 a0 a, add32 b0 b, add32 c0 c, add32 d0 d).

Fixpoint blocks (n : nat) (st : state) (b : bytes) : state :=
  match n with
  | O => st
  | S m => blocks m (block st (firstn 64 b)) (skipn 64 b)
  end.

Definition digest (msg : bytes) : bytes :=
  let p := pad msg in
  let '(a, b, c, d) :=
    blocks (length p / 64)
           (1732584193, 4023233417, 2562383102, 271733878)%N p in
  to_le 4 a ++ to_le 4 b ++ to_le 4 c ++ to_le 4 d.

Definition hexdigest (msg : bytes) : str := hex (digest msg).

End MD5.

(** ** The target shell, as far as the statements need it *)

Module Shell.

(** Pathname matching for a pattern whose only special character is
    ['?']: it stands for any one character, every other character for
    itself. *)
Fixpoint glob_match (pat name : str) : bool :=
  match pat, name with
  | [], [] => true
  | p :: pat', c :: name' =>
      (N.eqb p 63 || N.eqb p c) && glob_match pat' name'
  | _, _ => false
  end.

(** Lexicographic comparison of two names under a strict order [clt] on
    characters; the expansion of a pattern is sorted with it. *)
Fixpoint lex_ltb (clt : N -> N -> bool) (a b : str) : bool :=
  match a, b with
  | _, [] => false
  | [], _ :: _ => true
  | x :: a', y :: b' => clt x y || (N.eqb x y && lex_ltb clt a' b')
  end.

(** The byte value written by two hexadecimal digits, as [printf "\xHH"]
    reads them. *)
Definition unhex_digit (c : N) : option N :=
  if (48 <=? c)%N && (c <=? 57)%N then Some (c - 48)%N
  else if (97 <=? c)%N && (c <=? 102)%N then Some (c - 87)%N
  else None.

Definition hex_value (s : str) : option N :=
  match s with
  | [h; l] =>
      match unhex_digit h, unhex_digit l with
      | Some a, Some b => Some (16 * a + b)%N
      | _, _ => None
      end
  | _ => None
  end.

(** [cut -b lo-hi]: the bytes [lo] through [hi] of a line, counted from 1. *)
Definition cut_b (lo hi : nat) (s : str) : str := slice s (lo - 1) hi.

End Shell.

(** ** What a line of HexHash records *)

Module Recorded.
Section WithCollaborators.
Context {R : RandomGen} {H : Helpers} {D : Digest}.
Import Shell.

(** [line] is the payload line of a seed string and an offset such that the
    hex digest of the seed has the two hex digits of the byte [ch] at the
    offset; the bytes that [cut -b] takes there are these digits and read as
    [ch]. *)
Definition records (ch : N) (line : str) : Prop :=
  exists randomString seedBytes index,
    utf8 randomString = Ok seedBytes /\
    let randomhash := md5_hexdigest seedBytes in
    find randomhash [hex_digit (ch / 16); hex_digit (ch mod 16)]
    = Some index /\
    slice randomhash index (index + 2)
    = [hex_digit (ch / 16); hex_digit (ch mod 16)] /\
    cut_b (index + 1) (index + 2) randomhash
    = slice randomhash index (index + 2) /\
    hex_value (cut_b (index + 1) (index + 2) randomhash) = Some ch /\
    line = HexHash.payloadLine randomString (index + 1) (index + 2).

End WithCollaborators.
End Recorded.

(** ** Strings of binary digits *)

Module Bin.

Definition bit (c : N) : Prop := c = 48%N \/ c = 49%N.

(** The number written by a string of binary digits. *)
Fixpoint val (l : str) : nat :=
  match l with
  | [] => 0
  | c :: r => (if N.eqb c 49 then 2 ^ length r else 0) + val r
  end.

(** A digit string with ['0'] written [z] and ['1'] written [o]. *)
Definition sub (z o c : N) : N := if N.eqb c 49 then o else z.

End Bin.

(** ** A concrete set of collaborators

    A counter-driven generator over the letters and digits, the usual
    single-quote escaping, a mangler that joins its lines, and MD5. *)

Module Example.

Definition charList : list N :=
  lit "abcdefghijklmnopqrstuvwxyzABCDEFGHIJKLMNOPQRSTUVWXYZ0123456789".

Definition pick (l : list N) (g : nat) : N := nth (g mod length l) l 0%N.

Fixpoint gen (n g : nat) : str :=
  match n with
  | O => []
  | S m => pick charList g :: gen m (S g)
  end.

Definition bound (mx : option nat) : nat :=
  match mx with Some n => n | None => 4 end.

#[export] Instance R : RandomGen := {|
  rng := nat;
  randUniqueStr := fun g => (lit "u" ++ str_of_nat g, S g);
  randGenStr := fun _ mx g => (gen (bound mx) g, g + 7);
  randGenVar := fun g => (lit "v" ++ str_of_nat g, S g);
  randSelect := fun l g => (pick l g, S g);
  _randStrCharList := charList
|}.

Definition quote : str := [39%N].

#[export] Instance H : Helpers := {|
  escapeQuotes := fun s =>
    flat_map (fun c => if N.eqb c 39
                       then quote ++ [34%N] ++ quote ++ [34%N] ++ quote
                       else [c]) s;
  getFinalPayload := fun calls =>
    flat_map (fun c => match c with
                       | addPayloadLine l => l
                       | addLinesInRandomOrder d => flat_map fst d
                       | addJunk => []
                       end) calls
|}.

#[export] Instance D : Digest := {| md5_hexdigest := MD5.hexdigest |}.

(** No character occurs twice. *)
Fixpoint distinct (l : list N) : bool :=
  match l with
  | [] => true
  | x :: r => negb (mem x r) && distinct r
  end.

(** An obfuscator object before its first use. *)
Definition self0 (sizePref g : nat) : Self :=
  mkSelf sizePref (lit "/tmp/") None None None (g : @rng R) [].

End Example.

(** ** What a payload stages *)

Module Staged.
Section WithCollaborators.
Context {R : RandomGen} {H : Helpers}.
Import GlobObfuscator.

(** The data handed over with the lines of [addLinesInRandomOrder], in the
    order of the calls and of the dicts. *)
Definition written (calls : list mcall) : list (option str) :=
  flat_map (fun c => match c with
                     | addLinesInRandomOrder d => map snd d
                     | _ => []
                     end) calls.

(** The five calls by which [FolderGlob.mutate] stages one chunk alone in
    the directory [wd]. *)
Definition chunkCalls (wd chunk : str) : list mcall :=
  [addPayloadLine (mkdirLine wd);
   addLinesInRandomOrder
     [(printfLine wd 0 1, Some (escapeQuotes chunk))];
   addPayloadLine (catLine wd 1);
   addPayloadLine (rmLine wd 1);
   addPayloadLine (FolderGlob.rmdirChunkLine wd)].

(** The working directory that [generate] sets for a chunk of
    [FolderGlob.mutate], from the starting directory and the unique string
    drawn for the chunk (lines 72-75). *)
Definition chunkDir (startingDir u : str) : str :=
  match u with
  | [] => startingDir
  | _ :: _ => startingDir ++ lit "/" ++ escapeQuotes u
  end.

(** The working directories of [n] chunks in a row, the unique strings being
    drawn one after the other from the generator state [g]. *)
Fixpoint chunkDirs (startingDir : str) (g : rng) (n : nat) : list str :=
  match n with
  | O => []
  | S m =>
      let (u, g') := randUniqueStr g in
      chunkDir startingDir u :: chunkDirs startingDir g' m
  end.

End WithCollaborators.
End Staged.

(** ** A second generator *)

(** A generator whose random strings are the decimal numerals 0, 1, 2,
    ... *)
Module Numerals.

Definition R : RandomGen := {|
  rng := nat;
  randUniqueStr := fun g => (lit "u" ++ str_of_nat g, S g);
  randGenStr := fun _ _ g => (str_of_nat g, S g);
  randGenVar := fun g => (lit "v" ++ str_of_nat g, S g);
  randSelect := fun l g => (Example.pick l g, S g);
  _randStrCharList := lit "0123456789"
|}.

Definition self0 (sizePref g : nat) : @Self R :=
  @mkSelf R sizePref (lit "/tmp/") None None None g [].

End Numerals.

(** * Properties *)

(** ** Facts about the Python primitives *)

Module PyFacts.

(** *** [range] *)

Lemma range_from_length fuel start stop step :
  0 < step -> stop - start <= fuel ->
  length (range_from fuel start stop step) = (stop - start + step - 1) / step.
Proof.
  intros Hs. revert start.
  induction fuel as [|f IH]; intros start Hf; simpl.
  - replace (stop - start + step - 1) with (step - 1) by lia.
    symmetry. apply Nat.div_small. lia.
  - destruct (Nat.ltb_spec start stop) as [Hlt|Hge].
    + simpl. rewrite IH by lia.
      destruct (Nat.le_gt_cases (stop - start) step) as [Hle|Hgt].
      * replace (stop - (start + step) + step - 1) with (step - 1) by lia.
        rewrite Nat.div_small by lia.
        replace (stop - start + step - 1)
          with ((stop - start - 1) + 1 * step) by lia.
        rewrite Nat.div_add by lia.
        rewrite Nat.div_small by lia. reflexivity.
      * replace (stop - start + step - 1)
          with ((stop - (start + step) + step - 1) + 1 * step) by lia.
        rewrite Nat.div_add by lia. lia.
    + replace (stop - start + step - 1) with (step - 1) by lia.
      symmetry. apply Nat.div_small. lia.
Qed.

Lemma range_from_In fuel start stop step x :
  0 < step -> stop - start <= fuel ->
  In x (range_from fuel start stop step) <->
  x < stop /\ exists j, x = start + j * step.
Proof.
  intros Hs. revert start.
  induction fuel as [|f IH]; intros start Hf; simpl.
  - split; [tauto|]. intros [Hx [j ->]]. nia.
  - destruct (Nat.ltb_spec start stop) as [Hlt|Hge].
    + simpl. rewrite IH by lia. split.
      * intros [<-|[Hx [j ->]]].
        -- split; [lia|]. exists 0. lia.
        -- split; [lia|]. exists (S j). lia.
      * intros [Hx [[|j] ->]].
        -- left. lia.
        -- right. split; [lia|]. exists j. lia.
    + split; [simpl; tauto|]. intros [Hx [j ->]]. nia.
Qed.

Lemma range3_length start stop step :
  0 < step ->
  length (range3 start stop step) = (stop - start + step - 1) / step.
Proof. intros. apply range_from_length; lia. Qed.

Lemma range3_In start stop step x :
  0 < step ->
  In x (range3 start stop step) <->
  x < stop /\ exists j, x = start + j * step.
Proof. intros. apply range_from_In; lia. Qed.

(** The number of elements of [range(0, n, s)] is the ceiling of [n / s]:
    the only [c] with [n <= c * s < n + s]. *)
Lemma ceil_bounds n s :
  0 < s ->
  n <= ((n + s - 1) / s) * s /\ ((n + s - 1) / s) * s < n + s.
Proof.
  intros Hs.
  pose proof (Nat.div_mod_eq (n + s - 1) s) as E.
  pose proof (Nat.mod_upper_bound (n + s - 1) s ltac:(lia)) as B.
  nia.
Qed.

(** *** [math.ceil(math.log(n, 2))] *)

Lemma ceil_log2_from_spec fuel n k :
  0 < n -> n <= fuel + 2 ^ k -> (k = 0 \/ 2 ^ (k - 1) < n) ->
  let r := ceil_log2_from fuel n k (2 ^ k) in
  n <= 2 ^ r /\ (r = 0 \/ 2 ^ (r - 1) < n).
Proof.
  revert k. induction fuel as [|f IH]; intros k Hn Hf Hk; simpl.
  - split; [lia | exact Hk].
  - destruct (Nat.leb_spec n (2 ^ k)) as [Hle|Hgt].
    + split; [lia | exact Hk].
    + replace (2 ^ k + (2 ^ k + 0)) with (2 ^ (S k)) by (simpl; lia).
      apply IH; [lia | | right].
      * simpl. pose proof (Nat.pow_nonzero 2 k). lia.
      * replace (S k - 1) with k by lia. exact Hgt.
Qed.

Lemma ceil_log2_ok n :
  0 < n -> ceil_log2 n = Ok (Nat.log2_up n).
Proof.
  intros Hn. unfold ceil_log2.
  destruct (Nat.eqb_spec n 0) as [->|_]; [lia|]. f_equal.
  pose proof (@ceil_log2_from_spec n n 0 Hn) as S0. simpl in S0.
  specialize (S0 ltac:(lia) ltac:(left; reflexivity)).
  destruct S0 as [Hup Hlow].
  set (r := ceil_log2_from n n 0 1) in *.
  destruct (Nat.eq_dec r 0) as [E0|Hr].
  - rewrite E0 in *. simpl in Hup. assert (n = 1) as -> by lia. reflexivity.
  - symmetry. apply Nat.log2_up_unique; [lia|].
    destruct Hlow as [?|Hlow]; [lia|].
    replace (Nat.pred r) with (r - 1) by lia. lia.
Qed.

Lemma ceil_log2_zero : ceil_log2 0 = Raise ValueError.
Proof. reflexivity. Qed.

End PyFacts.

(** ** Facts about binary digit strings *)

Module BinFacts.

Import Bin Shell.

Lemma val_app_last l c :
  val (l ++ [c]) = 2 * val l + (if N.eqb c 49 then 1 else 0).
Proof.
  induction l as [|x l IH]; simpl.
  - destruct (N.eqb c 49); reflexivity.
  - rewrite IH, length_app. simpl.
    replace (length l + 1) with (S (length l)) by lia.
    destruct (N.eqb x 49); simpl; lia.
Qed.

Lemma val_bound l : val l < 2 ^ length l.
Proof.
  induction l as [|x l IH]; simpl; [lia|].
  destruct (N.eqb x 49); lia.
Qed.

Lemma val_zeros k l : val (repeat 48%N k ++ l) = val l.
Proof. induction k as [|k IH]; simpl; [reflexivity|exact IH]. Qed.

Lemma bin_pos_bits p : Forall bit (bin_pos p).
Proof.
  induction p as [q IH|q IH|]; simpl.
  - apply Forall_app. split; [exact IH|]. constructor; [right; reflexivity|constructor].
  - apply Forall_app. split; [exact IH|]. constructor; [left; reflexivity|constructor].
  - constructor; [right; reflexivity|constructor].
Qed.

Lemma bin_pos_val p : val (bin_pos p) = Pos.to_nat p.
Proof.
  induction p as [q IH|q IH|]; simpl.
  - rewrite val_app_last, IH. simpl. lia.
  - rewrite val_app_last, IH. simpl. lia.
  - reflexivity.
Qed.

(** A positive number with [n] digits is at least [2^(n-1)]. *)
Lemma bin_pos_low p : 2 ^ (length (bin_pos p) - 1) <= Pos.to_nat p.
Proof.
  induction p as [q IH|q IH|]; simpl; try lia;
    rewrite length_app; simpl;
    assert (0 < length (bin_pos q)) by (destruct q; simpl; try rewrite length_app; simpl; lia);
    replace (length (bin_pos q) + 1 - 1) with (S (length (bin_pos q) - 1)) by lia;
    simpl; lia.
Qed.

Lemma bin_bits i : Forall bit (bin i).
Proof.
  unfold bin. destruct (N.of_nat i).
  - constructor; [left; reflexivity|constructor].
  - apply bin_pos_bits.
Qed.

Lemma bin_val i : val (bin i) = i.
Proof.
  unfold bin. destruct (N.of_nat i) eqn:E.
  - simpl. lia.
  - rewrite bin_pos_val. lia.
Qed.

Lemma bin_length i w : i < 2 ^ w -> 0 < w -> length (bin i) <= w.
Proof.
  intros Hi Hw. unfold bin. destruct (N.of_nat i) eqn:E; simpl; [lia|].
  pose proof (bin_pos_low p) as L.
  assert (Pos.to_nat p = i) as Ei by lia. rewrite Ei in L.
  destruct (Nat.le_gt_cases (length (bin_pos p)) w) as [?|Hgt]; [assumption|].
  exfalso.
  assert (2 ^ w <= 2 ^ (length (bin_pos p) - 1))
    by (apply Nat.pow_le_mono_r; lia).
  lia.
Qed.

Lemma format_0b_bits i w : Forall bit (format_0b i w).
Proof.
  unfold format_0b. apply Forall_app. split.
  - apply Forall_forall. intros x Hx. apply repeat_spec in Hx. left. exact Hx.
  - apply bin_bits.
Qed.

Lemma format_0b_val i w : val (format_0b i w) = i.
Proof. unfold format_0b. rewrite val_zeros. apply bin_val. Qed.

Lemma format_0b_length i w :
  i < 2 ^ w -> 0 < w -> length (format_0b i w) = w.
Proof.
  intros Hi Hw. unfold format_0b.
  rewrite length_app, repeat_length.
  pose proof (bin_length Hi Hw). lia.
Qed.

(** The two replacements of the file name, on a string of binary digits. *)
Lemma replace_bits s :
  Forall bit s ->
  replace1 49 10 (replace1 48 63 s) = map (sub 63 10) s.
Proof.
  intros Hs. unfold replace1. rewrite map_map.
  apply map_ext_in. intros c Hc.
  rewrite Forall_forall in Hs. destruct (Hs c Hc) as [->| ->]; reflexivity.
Qed.

(** Strings of binary digits of one length, with ['0'] written [z] and
    ['1'] written [o]: the comparison of the strings follows the numbers
    when [z] is below [o], and is the reverse when [o] is below [z]. *)
Lemma lex_digits clt z o :
  z <> o -> clt z z = false -> clt o o = false ->
  forall a b, Forall bit a -> Forall bit b -> length a = length b ->
    lex_ltb clt (map (sub z o) a) (map (sub z o) b) = true <->
    (clt z o = true /\ val a < val b) \/ (clt o z = true /\ val b < val a).
Proof.
  intros Hzo Hz Ho. induction a as [|x a IH]; intros [|y b] Ha Hb Hl;
    simpl in Hl; try discriminate.
  - simpl. split; [discriminate|]. intros [[_ ?]|[_ ?]]; lia.
  - inversion Ha as [|? ? Hx Ha']; inversion Hb as [|? ? Hy Hb']; subst.
    injection Hl as Hl.
    pose proof (val_bound a) as Ba. pose proof (val_bound b) as Bb.
    rewrite Hl in Ba.
    specialize (IH b Ha' Hb' Hl).
    assert (N.eqb z o = false) as Ezo by (apply N.eqb_neq; exact Hzo).
    assert (N.eqb o z = false) as Eoz
      by (apply N.eqb_neq; intros E; apply Hzo; symmetry; exact E).
    destruct Hx as [-> | ->], Hy as [-> | ->]; simpl; unfold sub; simpl;
      rewrite ?Hz, ?Ho, ?Ezo, ?Eoz, ?N.eqb_refl, ?Hl; simpl;
      rewrite ?orb_false_r.
    + rewrite IH. split; intros [[? ?]|[? ?]]; (left; split; [assumption|lia]) || (right; split; [assumption|lia]).
    + split.
      * intros E. left. split; [exact E|lia].
      * intros [[E _]|[_ ?]]; [exact E|lia].
    + split.
      * intros E. right. split; [exact E|lia].
      * intros [[_ ?]|[E _]]; [lia|exact E].
    + rewrite IH. split; intros [[? ?]|[? ?]]; (left; split; [assumption|lia]) || (right; split; [assumption|lia]).
Qed.

End BinFacts.

(** ** The glob encoders *)

Module GlobFacts.
Section WithCollaborators.
Context {R : RandomGen} {H : Helpers}.
Import GlobObfuscator PyFacts BinFacts Bin Shell.

Lemma chunks_length userCmd ss :
  0 < ss -> length (chunks userCmd ss) = (length userCmd + ss - 1) / ss.
Proof.
  intros Hs. unfold chunks. rewrite length_map, range3_length by exact Hs.
  rewrite Nat.sub_0_r. reflexivity.
Qed.

Lemma chunks_nil ss : chunks [] ss = [].
Proof. reflexivity. Qed.

Lemma chunks_nonempty userCmd ss :
  userCmd <> [] -> 0 < ss -> 0 < length (chunks userCmd ss).
Proof.
  intros Hc Hs. rewrite chunks_length by exact Hs.
  destruct userCmd as [|c r]; [congruence|]. simpl length.
  replace (S (length r) + ss - 1) with (length r + 1 * ss) by lia.
  rewrite Nat.div_add by lia. lia.
Qed.

Lemma indexWidth_ok n :
  0 < n -> indexWidth n = Ok (Nat.max 1 (Nat.log2_up n)).
Proof.
  intros Hn. unfold indexWidth. rewrite ceil_log2_ok by exact Hn.
  unfold bind.
  destruct (Nat.leb_spec (Nat.log2_up n) 0); f_equal; lia.
Qed.

Lemma indexWidth_zero : indexWidth 0 = Raise ValueError.
Proof. reflexivity. Qed.

(** Every chunk index fits in the index width. *)
Lemma width_fits n : 0 < n -> n <= 2 ^ Nat.max 1 (Nat.log2_up n).
Proof.
  intros Hn.
  destruct (Nat.eq_dec n 1) as [->|Hn1]; [simpl; lia|].
  pose proof (Nat.log2_up_spec n ltac:(lia)) as [_ Hup].
  eapply Nat.le_trans; [exact Hup|].
  apply Nat.pow_le_mono_r; lia.
Qed.

Lemma fileName_sub i w : fileName i w = map (sub 63 10) (format_0b i w).
Proof. unfold fileName. apply replace_bits, format_0b_bits. Qed.

Lemma fileName_length i w :
  i < 2 ^ w -> 0 < w -> length (fileName i w) = w.
Proof.
  intros. rewrite fileName_sub, length_map. apply format_0b_length; assumption.
Qed.

Lemma sub_inj a b :
  Forall bit a -> Forall bit b ->
  map (sub 63 10) a = map (sub 63 10) b -> a = b.
Proof.
  revert b. induction a as [|x a IH]; intros [|y b] Ha Hb E;
    simpl in E; try discriminate; [reflexivity|].
  inversion Ha as [|? ? Hx Ha']; inversion Hb as [|? ? Hy Hb']; subst.
  injection E as Exy E. f_equal; [|apply IH; assumption].
  destruct Hx as [-> | ->], Hy as [-> | ->]; try reflexivity;
    vm_compute in Exy; discriminate.
Qed.

Lemma fileName_inj i j w : fileName i w = fileName j w -> i = j.
Proof.
  rewrite !fileName_sub. intros E.
  apply sub_inj in E; try apply format_0b_bits.
  rewrite <- (format_0b_val i w), <- (format_0b_val j w), E. reflexivity.
Qed.

Lemma glob_match_wild name :
  glob_match (repeat 63%N (length name)) name = true.
Proof. induction name as [|c r IH]; simpl; [reflexivity|exact IH]. Qed.

Lemma glob_one name :
  glob_match [63%N] name = true <-> exists c, name = [c].
Proof.
  split.
  - destruct name as [|c [|d r]]; simpl; try discriminate.
    intros _. exists c. reflexivity.
  - intros [c ->]. reflexivity.
Qed.

Lemma printfLine_inj wd i j w :
  printfLine wd i w = printfLine wd j w -> i = j.
Proof.
  unfold printfLine. intros E.
  apply app_inv_head in E. apply app_inv_head in E.
  apply app_inv_head in E. apply app_inv_tail in E.
  eapply fileName_inj; exact E.
Qed.

Lemma update_fresh (d : dict) k v :
  (forall kv, In kv d -> fst kv <> k) -> update d k v = d ++ [(k, v)].
Proof.
  induction d as [|[k' v'] d IH]; intros Hf; simpl; [reflexivity|].
  destruct (list_eq_dec N.eq_dec k k') as [E|_].
  - exfalso. apply (Hf (k', v')); [left; reflexivity|]. symmetry. exact E.
  - f_equal. apply IH. intros kv Hk. apply Hf. right. exact Hk.
Qed.

(** One line per chunk: no two chunks share a file name. *)
Lemma printLines_map wd cmdChars w :
  printLines wd cmdChars w =
  map (fun i => (printfLine wd i w, Some (escapeQuotes (nth i cmdChars []))))
      (seq 0 (length cmdChars)).
Proof.
  unfold printLines. generalize (length cmdChars) as n.
  induction n as [|n IH]; [reflexivity|].
  rewrite seq_S, fold_left_app, map_app, IH. simpl.
  apply update_fresh. intros kv Hk. apply in_map_iff in Hk.
  destruct Hk as [i [<- Hi]]. apply in_seq in Hi. simpl.
  intros E. apply printfLine_inj in E. lia.
Qed.

Lemma fileName_lex clt i j w :
  clt 63%N 63%N = false -> clt 10%N 10%N = false ->
  i < 2 ^ w -> j < 2 ^ w -> 0 < w ->
  lex_ltb clt (fileName i w) (fileName j w) = true <->
  (clt 63%N 10%N = true /\ i < j) \/ (clt 10%N 63%N = true /\ j < i).
Proof.
  intros Hz Ho Hi Hj Hw. rewrite !fileName_sub.
  rewrite (@lex_digits clt 63%N 10%N ltac:(discriminate) Hz Ho
             (format_0b i w) (format_0b j w)
             (format_0b_bits i w) (format_0b_bits j w)).
  - rewrite !format_0b_val. reflexivity.
  - rewrite !format_0b_length by assumption. reflexivity.
Qed.

Lemma generate_ok self userCmd ss sd :
  userCmd <> [] -> sectionSize self = Some ss -> 0 < ss ->
  startingDir self = Some sd ->
  let cmdChars := chunks userCmd ss in
  let w := Nat.max 1 (Nat.log2_up (length cmdChars)) in
  generate self userCmd None =
  Ok (call (call (call (call (set_workingDir self sd)
        (addPayloadLine (mkdirLine sd)))
        (addLinesInRandomOrder (printLines sd cmdChars w)))
        (addPayloadLine (catLine sd w)))
        (addPayloadLine (rmLine sd w))).
Proof.
  intros Hc Hss Hpos Hsd cmdChars w. unfold generate.
  rewrite Hsd. simpl. rewrite Hss. simpl.
  destruct (Nat.eqb_spec ss 0) as [->|_]; [lia|].
  rewrite indexWidth_ok by (apply chunks_nonempty; assumption).
  reflexivity.
Qed.

Lemma generate_empty self w : forall s, generate self [] w <> Ok s.
Proof.
  intros s. unfold generate.
  destruct (startingDir self); simpl; [|discriminate].
  destruct (sectionSize self) as [ss|]; simpl; [|discriminate].
  destruct (ss =? 0); [discriminate|].
  discriminate.
Qed.

End WithCollaborators.
End GlobFacts.

Module SizeFacts.
Section WithCollaborators.
Context {R : RandomGen} {H : Helpers}.
Import GlobObfuscator PyFacts BinFacts GlobFacts Bin Shell.

Lemma setSizes_mangler (self : Self) userCmd :
  mangler (setSizes self userCmd) = mangler self.
Proof.
  unfold setSizes.
  destruct (sizePref self =? 1); [|destruct (sizePref self =? 2);
    [|destruct (sizePref self =? 3)]];
    simpl; destruct (randUniqueStr (randGen self)); reflexivity.
Qed.

Lemma setSizes_startingDir (self : Self) userCmd :
  startingDir (setSizes self userCmd) =
  Some (escapeQuotes (writeDir self ++ fst (randUniqueStr (randGen self)))).
Proof.
  unfold setSizes.
  destruct (sizePref self =? 1); [|destruct (sizePref self =? 2);
    [|destruct (sizePref self =? 3)]];
    simpl; destruct (randUniqueStr (randGen self)); reflexivity.
Qed.

Lemma setSizes_sectionSize (self : Self) userCmd :
  In (sizePref self) [1; 2; 3] ->
  sectionSize (setSizes self userCmd) =
  Some (if sizePref self =? 1 then length userCmd / 10 + 1
        else if sizePref self =? 2 then length userCmd / 100 + 1
        else 1).
Proof.
  intros Hp. unfold setSizes.
  destruct Hp as [E|[E|[E|[]]]]; rewrite <- E; simpl;
    destruct (randUniqueStr (randGen self)); reflexivity.
Qed.

Lemma setSizes_sectionSize_pos (self : Self) userCmd :
  In (sizePref self) [1; 2; 3] ->
  exists ss, sectionSize (setSizes self userCmd) = Some ss /\ 0 < ss.
Proof.
  intros Hp. rewrite setSizes_sectionSize by exact Hp.
  eexists. split; [reflexivity|].
  destruct (sizePref self =? 1); [lia|].
  destruct (sizePref self =? 2); lia.
Qed.

End WithCollaborators.
End SizeFacts.

(** ** Sets, strides and byte arrays *)

Module SeqFacts.
Import PyFacts.

Lemma mem_In c s : mem c s = true <-> In c s.
Proof.
  unfold mem. rewrite existsb_exists. split.
  - intros [x [Hx E]]. apply N.eqb_eq in E. subst. exact Hx.
  - intros Hc. exists c. split; [exact Hc|apply N.eqb_refl].
Qed.

Lemma mem_false c s : mem c s = false <-> ~ In c s.
Proof.
  rewrite <- mem_In. destruct (mem c s); split; congruence.
Qed.

Lemma set_of_In c s : In c (set_of s) <-> In c s.
Proof.
  induction s as [|x s IH]; simpl; [tauto|].
  destruct (mem x s) eqn:M.
  - rewrite IH. apply mem_In in M. split; [tauto|].
    intros [<-|Hc]; assumption.
  - simpl. rewrite IH. tauto.
Qed.

Lemma set_of_length s : length (set_of s) <= length s.
Proof.
  induction s as [|x s IH]; simpl; [lia|].
  destruct (mem x s); simpl; lia.
Qed.

Lemma remove1_In_inv c l x : In x (remove1 c l) -> In x l.
Proof.
  induction l as [|y l IH]; simpl; [tauto|].
  destruct (N.eqb c y); simpl; tauto.
Qed.

Lemma remove1_NoDup c l : NoDup l -> NoDup (remove1 c l).
Proof.
  induction 1 as [|y l Hy Hl IH]; simpl; [constructor|].
  destruct (N.eqb c y); [exact Hl|].
  constructor; [|exact IH]. intros Hin. apply Hy.
  eapply remove1_In_inv; exact Hin.
Qed.

Lemma remove1_In c l x :
  NoDup l -> (In x (remove1 c l) <-> In x l /\ x <> c).
Proof.
  induction 1 as [|y l Hy Hl IH]; simpl; [tauto|].
  destruct (N.eqb_spec c y) as [->|Hne].
  - split.
    + intros Hx. split; [right; exact Hx|]. intros ->. contradiction.
    + intros [[<-|Hx] Hn]; [congruence|exact Hx].
  - simpl. rewrite IH. split.
    + intros [<-|[Hx Hn]]; split; auto.
    + intros [[<-|Hx] Hn]; auto.
Qed.

Lemma remove1_length c l : length l <= S (length (remove1 c l)).
Proof.
  induction l as [|y l IH]; simpl; [lia|].
  destruct (N.eqb c y); simpl; lia.
Qed.

Import XorNonNull.

Lemma strike_cons c nullchars bl :
  strike (c :: nullchars) bl =
  strike nullchars (if mem c bl then remove1 c bl else bl).
Proof. reflexivity. Qed.

Lemma strike_NoDup nullchars bl : NoDup bl -> NoDup (strike nullchars bl).
Proof.
  revert bl. induction nullchars as [|c nc IH]; intros bl Hbl;
    [exact Hbl|].
  rewrite strike_cons.
  apply IH. destruct (mem c bl); [apply remove1_NoDup|]; exact Hbl.
Qed.

Lemma strike_In nullchars bl x :
  NoDup bl -> (In x (strike nullchars bl) <-> In x bl /\ ~ In x nullchars).
Proof.
  revert bl. induction nullchars as [|c nc IH]; intros bl Hbl;
    [simpl; tauto|].
  rewrite strike_cons. destruct (mem c bl) eqn:M.
  - rewrite IH by (apply remove1_NoDup; exact Hbl).
    rewrite remove1_In by exact Hbl. simpl. split.
    + intros [[Hx Hn] Hnc]. split; [exact Hx|]. intros [E|Hi]; auto.
    + intros [Hx Hn]. repeat split; auto.
  - rewrite IH by exact Hbl.
    apply mem_false in M. simpl. split.
    + intros [Hx Hnc]. split; [exact Hx|]. intros [<-|Hi]; auto.
    + intros [Hx Hn]. split; auto.
Qed.

Lemma strike_length nullchars bl :
  length bl <= length (strike nullchars bl) + length nullchars.
Proof.
  revert bl. induction nullchars as [|c nc IH]; intros bl;
    [simpl; lia|].
  rewrite strike_cons. simpl length. destruct (mem c bl).
  - specialize (IH (remove1 c bl)).
    pose proof (remove1_length c bl). lia.
  - specialize (IH bl). lia.
Qed.

(** *** [s[i::k]] *)

Lemma firstn1_skipn_In {A} (s : list A) j c :
  In c (firstn 1 (skipn j s)) <-> nth_error s j = Some c.
Proof.
  rewrite <- hd_error_skipn.
  destruct (skipn j s) as [|x r]; simpl.
  - split; [tauto|discriminate].
  - split.
    + intros [->|[]]. reflexivity.
    + intros E. injection E as ->. left. reflexivity.
Qed.

Lemma stride_In {A} (s : list A) i k c :
  0 < k ->
  In c (stride s i k) <-> exists j, nth_error s (i + j * k) = Some c.
Proof.
  intros Hk. unfold stride. rewrite in_flat_map. split.
  - intros [x [Hx Hc]]. apply range3_In in Hx; [|exact Hk].
    destruct Hx as [_ [j ->]]. exists j. apply firstn1_skipn_In. exact Hc.
  - intros [j Hj]. exists (i + j * k). split.
    + apply range3_In; [exact Hk|]. split; [|exists j; reflexivity].
      apply nth_error_Some. congruence.
    + apply firstn1_skipn_In. exact Hj.
Qed.

Lemma flat_map_short {A B} (f : A -> list B) l :
  (forall x, length (f x) <= 1) -> length (flat_map f l) <= length l.
Proof.
  intros Hf. induction l as [|x l IH]; simpl; [lia|].
  rewrite length_app. specialize (Hf x). lia.
Qed.

(** With a key at least as long as the command, a stride has at most one
    character. *)
Lemma stride_short {A} (s : list A) i k :
  0 < k -> length s <= k -> length (stride s i k) <= 1.
Proof.
  intros Hk Hl. unfold stride.
  eapply Nat.le_trans.
  - apply flat_map_short. intros x.
    rewrite length_firstn. lia.
  - rewrite range3_length by exact Hk.
    destruct (Nat.le_gt_cases (length s) i) as [Hle|Hgt].
    + replace (length s - i + k - 1) with (k - 1) by lia.
      rewrite Nat.div_small; lia.
    + replace (length s - i + k - 1)
        with ((length s - i - 1) + 1 * k) by lia.
      rewrite Nat.div_add by lia.
      rewrite Nat.div_small; lia.
Qed.

(** *** UTF-8 of single-byte characters *)

Lemma utf8_char_ascii c : (c < 128)%N -> utf8_char c = Ok [c].
Proof.
  intros Hc. unfold utf8_char.
  destruct (N.ltb_spec c 128); [reflexivity|lia].
Qed.

Lemma utf8_ascii s : ascii_str s -> utf8 s = Ok s.
Proof.
  induction 1 as [|c s Hc Hs IH]; simpl; [reflexivity|].
  rewrite utf8_char_ascii by exact Hc. simpl. rewrite IH. reflexivity.
Qed.

(** *** [b[i] = v] *)

Lemma set_nth_length b i v : length (XorNonNull.set_nth b i v) = length b.
Proof.
  revert i. induction b as [|x b IH]; intros [|i]; simpl; auto.
Qed.

Lemma set_nth_same b i v :
  i < length b -> nth_error (XorNonNull.set_nth b i v) i = Some v.
Proof.
  revert i. induction b as [|x b IH]; intros [|i] Hi; simpl in *;
    try lia; [reflexivity|].
  apply IH. lia.
Qed.

Lemma set_nth_other b i j v :
  i <> j -> nth_error (XorNonNull.set_nth b i v) j = nth_error b j.
Proof.
  revert i j. induction b as [|x b IH]; intros [|i] [|j] Hij; simpl;
    try reflexivity; try lia.
  apply IH. lia.
Qed.

Lemma set_nth_Forall (P : N -> Prop) b i v :
  Forall P b -> P v -> Forall P (XorNonNull.set_nth b i v).
Proof.
  intros Hb Hv. revert i.
  induction Hb as [|x b Hx Hb IH]; intros [|i]; simpl;
    constructor; auto.
Qed.

End SeqFacts.

(** ** The key of XorNonNull *)

Module XorFacts.
Section WithCollaborators.
Context {R : RandomGen} {L : RandomGenLaws R}.
Import XorNonNull PyFacts SeqFacts.

Lemma charBlackList_In nullchars x :
  In x (charBlackList nullchars) <->
  In x _randStrCharList /\ ~ In x nullchars.
Proof. unfold charBlackList. apply strike_In, charList_NoDup. Qed.

Lemma charBlackList_length nullchars :
  length _randStrCharList <=
  length (charBlackList nullchars) + length nullchars.
Proof. unfold charBlackList. apply strike_length. Qed.

Lemma charList_byte c : In c _randStrCharList -> (c < 128)%N.
Proof.
  intros Hc. pose proof charList_ascii as A. unfold ascii_str in A.
  rewrite Forall_forall in A. apply A. exact Hc.
Qed.

(** The replacement of line 208: a character picked from a nonempty black
    list is stored as its own byte. *)
Lemma replacement nullchars g :
  charBlackList nullchars <> [] ->
  let c := fst (randSelect (charBlackList nullchars) g) in
  In c (charBlackList nullchars) /\
  utf8_char c = Ok [c] /\ (from_bytes_big [c] <? 256)%N = true /\
  from_bytes_big [c] = c.
Proof.
  intros Hne c.
  assert (In c (charBlackList nullchars)) as Hc
    by (apply randSelect_In; exact Hne).
  assert (c < 128)%N as Hb
    by (apply charList_byte; apply charBlackList_In in Hc; tauto).
  split; [exact Hc|]. split; [apply utf8_char_ascii; exact Hb|].
  assert (from_bytes_big [c] = c) as E by (unfold from_bytes_big; simpl; lia).
  split; [|exact E]. rewrite E. apply N.ltb_lt. lia.
Qed.

Lemma length_pos_neq {A} (l : list A) : (0 <? length l) = true -> l <> [].
Proof. destruct l; simpl; [discriminate|discriminate]. Qed.

(** The loop never raises; when it returns a key, the positions it went
    through hold bytes that are absent from their strides and the other
    positions are untouched. *)
Lemma fixKey_spec userCmd keyLen positions :
  NoDup positions ->
  forall xorKeyBytes g,
    (forall p, In p positions -> p < length xorKeyBytes) ->
    exists r g',
      fixKey userCmd keyLen positions xorKeyBytes g = Ok (r, g') /\
      forall key, r = Some key ->
        length key = length xorKeyBytes /\
        (forall p, ~ In p positions ->
                   nth_error key p = nth_error xorKeyBytes p) /\
        (forall p b, In p positions -> nth_error key p = Some b ->
                     ~ In b (stride userCmd p keyLen)).
Proof.
  induction 1 as [|i rest Hi Hnd IH]; intros key g Hlen; simpl.
  - exists (Some key), g. split; [reflexivity|].
    intros k E. injection E as <-.
    split; [reflexivity|]. split; [reflexivity|]. intros p b [].
  - destruct (nth_error key i) as [b|] eqn:Eb;
      [|apply nth_error_None in Eb; specialize (Hlen i (or_introl eq_refl)); lia].
    simpl. set (nullchars := set_of (stride userCmd i keyLen)).
    destruct (mem b nullchars) eqn:M.
    + destruct (0 <? length (charBlackList nullchars)) eqn:Ebl.
      * pose proof (@replacement nullchars g (length_pos_neq Ebl))
          as [Hc [Hu [Hv Hval]]].
        destruct (randSelect (charBlackList nullchars) g) as [c g1].
        simpl in Hc, Hu, Hv, Hval. rewrite Hu. simpl. rewrite Hv, Hval.
        destruct (IH (set_nth key i c) g1) as [r [g' [E Hr]]].
        { intros p Hp. rewrite set_nth_length. apply Hlen. right. exact Hp. }
        exists r, g'. split; [exact E|].
        intros k Ek. destruct (Hr k Ek) as [Hl [Hout Hin]].
        rewrite set_nth_length in Hl. split; [exact Hl|]. split.
        -- intros p Hp. rewrite Hout by (intros Hq; apply Hp; right; exact Hq).
           apply set_nth_other. intros ->. apply Hp. left. reflexivity.
        -- intros p b' [<-|Hp] Eb'.
           ++ rewrite Hout in Eb' by exact Hi.
              rewrite set_nth_same in Eb'
                by (apply Hlen; left; reflexivity).
              injection Eb' as <-.
              apply charBlackList_In in Hc. destruct Hc as [_ Hc].
              intros Hs. apply Hc. apply set_of_In. exact Hs.
           ++ eapply Hin; eassumption.
      * exists None, g. split; [reflexivity|]. discriminate.
    + destruct (IH key g) as [r [g' [E Hr]]].
      { intros p Hp. apply Hlen. right. exact Hp. }
      exists r, g'. split; [exact E|].
      intros k Ek. destruct (Hr k Ek) as [Hl [Hout Hin]].
      split; [exact Hl|]. split.
      * intros p Hp. apply Hout. intros Hq. apply Hp. right. exact Hq.
      * intros p b' [<-|Hp] Eb'.
        -- rewrite Hout in Eb' by exact Hi. rewrite Eb in Eb'.
           injection Eb' as <-. apply mem_false in M.
           intros Hs. apply M. apply set_of_In. exact Hs.
        -- eapply Hin; eassumption.
Qed.

(** The random key is a string of single-byte characters of the list. *)
Lemma key_bytes g keyLen :
  let s := fst (randGenStr (Some keyLen) (Some keyLen) g) in
  utf8 s = Ok s /\ length s = keyLen /\
  Forall (fun c => In c _randStrCharList) s.
Proof.
  intros s. pose proof (randGenStr_chars (Some keyLen) (Some keyLen) g) as Hc.
  split; [|split; [apply randGenStr_length|exact Hc]].
  apply utf8_ascii. unfold ascii_str.
  eapply Forall_impl; [|exact Hc]. intros c. apply charList_byte.
Qed.

Lemma genXorKey_spec g keyLen userCmd :
  exists r g',
    genXorKey g keyLen userCmd = Ok (r, g') /\
    forall key, r = Some key ->
      length key = keyLen /\
      forall i b, i < keyLen -> nth_error key i = Some b ->
                  ~ In b (stride userCmd i keyLen).
Proof.
  unfold genXorKey. pose proof (key_bytes g keyLen) as [Hu [Hl _]].
  destruct (randGenStr (Some keyLen) (Some keyLen) g) as [s g1].
  simpl in Hu, Hl. rewrite Hu. simpl.
  destruct (@fixKey_spec userCmd keyLen (seq 0 keyLen) (seq_NoDup _ _) s g1)
    as [r [g' [E Hr]]].
  { intros p Hp. apply in_seq in Hp. lia. }
  exists r, g'. split; [exact E|].
  intros key Ek. destruct (Hr key Ek) as [Hlen [_ Hin]].
  split; [lia|]. intros i b Hi. apply Hin. apply in_seq. lia.
Qed.

(** A position whose stride holds the whole character list makes the loop
    return [None]. *)
Lemma fixKey_full userCmd keyLen i positions :
  In i positions ->
  (forall c, In c _randStrCharList -> In c (stride userCmd i keyLen)) ->
  forall xorKeyBytes g,
    (forall p, In p positions -> p < length xorKeyBytes) ->
    Forall (fun c => In c _randStrCharList) xorKeyBytes ->
    exists g', fixKey userCmd keyLen positions xorKeyBytes g = Ok (None, g').
Proof.
  intros Hi Hfull. induction positions as [|j rest IH];
    intros key g Hlen Hkey; [destruct Hi|]. simpl.
  destruct (nth_error key j) as [b|] eqn:Eb;
    [|apply nth_error_None in Eb; specialize (Hlen j (or_introl eq_refl)); lia].
  simpl. set (nullchars := set_of (stride userCmd j keyLen)).
  assert (In b _randStrCharList) as Hb.
  { rewrite Forall_forall in Hkey. apply Hkey.
    eapply nth_error_In; exact Eb. }
  destruct (mem b nullchars) eqn:M.
  - destruct (0 <? length (charBlackList nullchars)) eqn:Ebl.
    + pose proof (@replacement nullchars g (length_pos_neq Ebl))
        as [Hc [Hu [Hv Hval]]].
      destruct (randSelect (charBlackList nullchars) g) as [c g1].
      simpl in Hc, Hu, Hv, Hval. rewrite Hu. simpl. rewrite Hv, Hval.
      apply charBlackList_In in Hc. destruct Hc as [Hc Hn].
      destruct Hi as [<-|Hi].
      * exfalso. apply Hn. apply set_of_In. apply Hfull. exact Hc.
      * apply IH; [exact Hi| |apply set_nth_Forall; assumption].
        intros p Hp. rewrite set_nth_length. apply Hlen. right. exact Hp.
    + exists g. reflexivity.
  - destruct Hi as [<-|Hi].
    + exfalso. apply mem_false in M. apply M. apply set_of_In.
      apply Hfull. exact Hb.
    + apply IH; [exact Hi| |exact Hkey].
      intros p Hp. apply Hlen. right. exact Hp.
Qed.

Lemma genXorKey_full g keyLen userCmd i :
  i < keyLen ->
  (forall c, In c _randStrCharList -> In c (stride userCmd i keyLen)) ->
  exists g', genXorKey g keyLen userCmd = Ok (None, g').
Proof.
  intros Hi Hfull. unfold genXorKey.
  pose proof (key_bytes g keyLen) as [Hu [Hl Hc]].
  destruct (randGenStr (Some keyLen) (Some keyLen) g) as [s g1].
  simpl in Hu, Hl, Hc. rewrite Hu. simpl.
  apply fixKey_full with (i := i); try assumption.
  - apply in_seq. lia.
  - intros p Hp. apply in_seq in Hp. lia.
Qed.

(** With strides of at most one character and two characters to choose
    from, the loop returns a key. *)
Lemma fixKey_short userCmd keyLen positions :
  2 <= length _randStrCharList ->
  (forall p, In p positions -> length (stride userCmd p keyLen) <= 1) ->
  forall xorKeyBytes g,
    (forall p, In p positions -> p < length xorKeyBytes) ->
    exists key g',
      fixKey userCmd keyLen positions xorKeyBytes g = Ok (Some key, g') /\
      length key = length xorKeyBytes.
Proof.
  intros Htwo. induction positions as [|j rest IH];
    intros Hshort key g Hlen; simpl.
  - exists key, g. split; reflexivity.
  - destruct (nth_error key j) as [b|] eqn:Eb;
      [|apply nth_error_None in Eb; specialize (Hlen j (or_introl eq_refl)); lia].
    simpl. set (nullchars := set_of (stride userCmd j keyLen)).
    assert (forall p, In p rest -> length (stride userCmd p keyLen) <= 1)
      as Hshort' by (intros p Hp; apply Hshort; right; exact Hp).
    destruct (mem b nullchars) eqn:M.
    + assert ((0 <? length (charBlackList nullchars)) = true) as Ebl.
      { apply Nat.ltb_lt.
        pose proof (charBlackList_length nullchars) as Hbl.
        pose proof (set_of_length (stride userCmd j keyLen)) as Hset.
        specialize (Hshort j (or_introl eq_refl)).
        fold nullchars in Hset. lia. }
      rewrite Ebl.
      pose proof (@replacement nullchars g (length_pos_neq Ebl))
        as [Hc [Hu [Hv Hval]]].
      destruct (randSelect (charBlackList nullchars) g) as [c g1].
      simpl in Hc, Hu, Hv, Hval. rewrite Hu. simpl. rewrite Hv, Hval.
      destruct (IH Hshort' (set_nth key j c) g1) as [k [g' [E Hl]]].
      { intros p Hp. rewrite set_nth_length. apply Hlen. right. exact Hp. }
      exists k, g'. split; [exact E|]. rewrite Hl. apply set_nth_length.
    + apply IH; [exact Hshort'|].
      intros p Hp. apply Hlen. right. exact Hp.
Qed.

Lemma genXorKey_long g keyLen userCmd :
  2 <= length _randStrCharList ->
  0 < keyLen -> length userCmd <= keyLen ->
  exists key g',
    genXorKey g keyLen userCmd = Ok (Some key, g') /\ length key = keyLen.
Proof.
  intros Htwo Hk Hlong. unfold genXorKey.
  pose proof (key_bytes g keyLen) as [Hu [Hl _]].
  destruct (randGenStr (Some keyLen) (Some keyLen) g) as [s g1].
  simpl in Hu, Hl. rewrite Hu. simpl.
  destruct (@fixKey_short userCmd keyLen (seq 0 keyLen) Htwo) with
    (xorKeyBytes := s) (g := g1) as [key [g' [E Hlen]]].
  - intros p _. apply stride_short; assumption.
  - intros p Hp. apply in_seq in Hp. lia.
  - exists key, g'. split; [exact E|lia].
Qed.

End WithCollaborators.
End XorFacts.

Module XorLoops.
Section WithCollaborators.
Context {R : RandomGen}.
Import XorNonNull PyFacts SeqFacts XorFacts.

(** Every run of the retry loop that returns has tried the lengths
    [keyLen + 1], [keyLen + 2], ... in this order, and returns the key that
    [genXorKey] gave at the last of them. *)
Lemma keySearch_tried userCmd fuel :
  forall keyLen g tried fnd,
    keySearch fuel keyLen userCmd g tried = Ok fnd ->
    exists m,
      tried_of fnd = tried ++ seq (keyLen + 1) (S m) /\
      keyLen_of fnd = keyLen + S m /\
      key_of fnd <> [] /\
      exists g0,
        genXorKey g0 (keyLen_of fnd) userCmd
        = Ok (Some (key_of fnd), rng_of fnd).
Proof.
  induction fuel as [|f IH]; intros keyLen g tried fnd E; simpl in E;
    [discriminate|].
  destruct (genXorKey g (keyLen + 1) userCmd) as [[r g1]| |] eqn:G;
    simpl in E; try discriminate.
  assert (forall fnd',
            keySearch f (keyLen + 1) userCmd g1 (tried ++ [keyLen + 1])
            = Ok fnd' ->
            exists m,
              tried_of fnd' = tried ++ seq (keyLen + 1) (S m) /\
              keyLen_of fnd' = keyLen + S m /\
              key_of fnd' <> [] /\
              exists g0,
                genXorKey g0 (keyLen_of fnd') userCmd
                = Ok (Some (key_of fnd'), rng_of fnd')) as Hrec.
  { intros fnd' E'. destruct (IH _ _ _ _ E') as [m [Ht [Hk Hg]]].
    exists (S m). split; [|split; [lia|exact Hg]].
    rewrite Ht, <- app_assoc. simpl.
    replace (keyLen + 1 + 1) with (S (keyLen + 1)) by lia. reflexivity. }
  destruct r as [[|b key]|]; try (apply Hrec; exact E).
  injection E as <-. exists 0. simpl.
  split; [reflexivity|]. split; [lia|]. split; [discriminate|].
  exists g. exact G.
Qed.

(** The loop of lines 238-239 on the positions [t], ..., [t + n - 1]. *)
Lemma xorLoop_spec xorKeyBytes keyLen :
  0 < keyLen -> length xorKeyBytes = keyLen ->
  forall n t cmdBytes,
    t + n <= length cmdBytes ->
    exists out,
      xorLoop (seq t n) cmdBytes xorKeyBytes keyLen = Ok out /\
      length out = length cmdBytes /\
      forall j,
        nth_error out j =
        if (t <=? j) && (j <? t + n)
        then option_map
               (fun c => N.lxor c (nth (j mod keyLen) xorKeyBytes 0%N))
               (nth_error cmdBytes j)
        else nth_error cmdBytes j.
Proof.
  intros Hk Hlen. induction n as [|n IH]; intros t cmdBytes Ht; simpl.
  - exists cmdBytes. split; [reflexivity|]. split; [reflexivity|].
    intros j. destruct (Nat.leb_spec t j), (Nat.ltb_spec j (t + 0));
      simpl; try reflexivity; lia.
  - destruct (nth_error cmdBytes t) as [c|] eqn:Ec;
      [|apply nth_error_None in Ec; lia].
    simpl. destruct (Nat.eqb_spec keyLen 0) as [?|_]; [lia|].
    assert (t mod keyLen < length xorKeyBytes) as Hm
      by (rewrite Hlen; apply Nat.mod_upper_bound; lia).
    destruct (nth_error xorKeyBytes (t mod keyLen)) as [k|] eqn:Ek;
      [|apply nth_error_None in Ek; lia].
    simpl.
    destruct (IH (S t) (set_nth cmdBytes t (N.lxor c k))) as [out [E [Hl Hj]]].
    { rewrite set_nth_length. lia. }
    exists out. split; [exact E|]. rewrite set_nth_length in Hl.
    split; [exact Hl|]. intros j. rewrite Hj.
    destruct (Nat.eq_dec j t) as [->|Hne].
    + assert ((S t <=? t) = false) as -> by (apply Nat.leb_gt; lia).
      assert ((t <=? t) = true) as -> by (apply Nat.leb_le; lia).
      assert ((t <? t + S n) = true) as -> by (apply Nat.ltb_lt; lia).
      cbn [andb]. rewrite set_nth_same by lia. rewrite Ec.
      cbn [option_map]. rewrite (nth_error_nth _ _ 0%N Ek). reflexivity.
    + rewrite set_nth_other by lia.
      assert ((S t <=? j) && (j <? S t + n) = (t <=? j) && (j <? t + S n))
        as ->; [|reflexivity].
      destruct (Nat.leb_spec (S t) j), (Nat.leb_spec t j),
        (Nat.ltb_spec j (S t + n)), (Nat.ltb_spec j (t + S n));
        try reflexivity; lia.
Qed.

Context {L : RandomGenLaws R}.

(** With enough fuel the retry loop returns. *)
Lemma keySearch_returns userCmd :
  2 <= length _randStrCharList ->
  forall fuel keyLen g tried,
    0 < fuel -> length userCmd <= keyLen + fuel ->
    exists fnd, keySearch fuel keyLen userCmd g tried = Ok fnd.
Proof.
  intros Htwo. induction fuel as [|f IH]; intros keyLen g tried Hf Hlen;
    [lia|]. simpl.
  destruct (Nat.le_gt_cases (length userCmd) (keyLen + 1)) as [Hle|Hgt].
  - destruct (@genXorKey_long _ _ g (keyLen + 1) userCmd Htwo) as
      [key [g' [E Hk]]]; [lia|exact Hle|].
    rewrite E. simpl. destruct key as [|b key]; [simpl in Hk; lia|].
    eexists. reflexivity.
  - destruct (genXorKey_spec g (keyLen + 1) userCmd) as [r [g' [E _]]].
    rewrite E. simpl.
    destruct r as [[|b key]|]; try (apply IH; lia).
    eexists. reflexivity.
Qed.

End WithCollaborators.
End XorLoops.

(** ** The digest search of HexHash *)

Module HexFacts.
Import PyFacts SeqFacts Shell.

Lemma prefixb_firstn a s : prefixb a s = true -> firstn (length a) s = a.
Proof.
  revert s. induction a as [|x a IH]; intros [|y s] E; simpl in *;
    try reflexivity; try discriminate.
  apply andb_prop in E. destruct E as [Exy E]. apply N.eqb_eq in Exy.
  subst. f_equal. apply IH. exact E.
Qed.

Lemma find_from_spec a s pos i :
  find_from a s pos = Some i ->
  pos <= i /\ prefixb a (skipn (i - pos) s) = true.
Proof.
  revert pos. induction s as [|y s IH]; intros pos E; simpl in E.
  - destruct (prefixb a []) eqn:P; [|discriminate].
    injection E as <-. rewrite Nat.sub_diag. split; [lia|exact P].
  - destruct (prefixb a (y :: s)) eqn:P.
    + injection E as <-. rewrite Nat.sub_diag. split; [lia|exact P].
    + apply IH in E. destruct E as [Hle E]. split; [lia|].
      replace (i - pos) with (S (i - S pos)) by lia. exact E.
Qed.

(** Where [find] reports an occurrence, the slice of that length is the
    string looked for. *)
Lemma find_slice s a i :
  find s a = Some i -> slice s i (i + length a) = a.
Proof.
  intros E. apply find_from_spec in E. destruct E as [_ E].
  rewrite Nat.sub_0_r in E. unfold slice.
  replace (i + length a - i) with (length a) by lia.
  apply prefixb_firstn. exact E.
Qed.

Lemma contains_find a s :
  contains a s = true -> exists i, find s a = Some i.
Proof.
  unfold contains. destruct (find s a) as [i|]; [|discriminate].
  intros _. exists i. reflexivity.
Qed.

Lemma unhex_hex_digit d :
  (d < 16)%N -> unhex_digit (hex_digit d) = Some d.
Proof.
  intros Hd. unfold unhex_digit, hex_digit.
  destruct (N.ltb_spec d 10) as [Hlt|Hge].
  - assert ((48 <=? 48 + d)%N = true) as -> by (apply N.leb_le; lia).
    assert ((48 + d <=? 57)%N = true) as -> by (apply N.leb_le; lia).
    cbn [andb]. f_equal. lia.
  - assert ((87 + d <=? 57)%N = false) as -> by (apply N.leb_gt; lia).
    rewrite andb_false_r.
    assert ((97 <=? 87 + d)%N = true) as -> by (apply N.leb_le; lia).
    assert ((87 + d <=? 102)%N = true) as -> by (apply N.leb_le; lia).
    cbn [andb]. f_equal. lia.
Qed.

Lemma hex_value_byte ch :
  (ch < 256)%N ->
  hex_value [hex_digit (ch / 16); hex_digit (ch mod 16)] = Some ch.
Proof.
  intros Hc. unfold hex_value.
  rewrite !unhex_hex_digit.
  - f_equal. pose proof (N.div_mod ch 16 ltac:(lia)). lia.
  - apply N.mod_lt. lia.
  - apply N.Div0.div_lt_upper_bound. lia.
Qed.

Section WithCollaborators.
Context {R : RandomGen} {H : Helpers} {D : Digest}.
Import HexHash.

Lemma hexchar_ascii ch :
  (ch < 128)%N ->
  hexchar ch = Ok [hex_digit (ch / 16); hex_digit (ch mod 16)].
Proof.
  intros Hc. unfold hexchar. rewrite utf8_char_ascii by exact Hc.
  reflexivity.
Qed.

(** When the loop exits, the digest it holds contains [hx]; unless the loop
    was never entered, the digest is that of the recorded seed. *)
Lemma search_spec hx fuel :
  forall rs rh g rs' rh' g',
    search fuel hx rs rh g = Ok (rs', rh', g') ->
    contains hx rh' = true /\
    ((rs' = rs /\ rh' = rh) \/
     exists seed b,
       rs' = Some seed /\ utf8 seed = Ok b /\ rh' = md5_hexdigest b).
Proof.
  induction fuel as [|f IH]; intros rs rh g rs' rh' g' E; simpl in E.
  - destruct (contains hx rh) eqn:C; [|discriminate].
    injection E as <- <- <-. split; [exact C|left; split; reflexivity].
  - destruct (contains hx rh) eqn:C.
    + injection E as <- <- <-. split; [exact C|left; split; reflexivity].
    + destruct (randGenStr None None g) as [s g1].
      destruct (utf8 s) as [b| |] eqn:U; simpl in E; try discriminate.
      apply IH in E. destruct E as [C' [[-> ->]|[seed [b' [-> [U' ->]]]]]].
      * split; [exact C'|]. right. exists s, b. repeat split. exact U.
      * split; [exact C'|]. right. exists seed, b'. repeat split. exact U'.
Qed.

Lemma encodeChar_spec fuel self ch self' :
  (ch < 128)%N ->
  encodeChar fuel self ch = Ok self' ->
  exists randomString b index,
    utf8 randomString = Ok b /\
    find (md5_hexdigest b) [hex_digit (ch / 16); hex_digit (ch mod 16)]
    = Some index /\
    mangler self' =
    mangler self ++
      [addPayloadLine (payloadLine randomString (index + 1) (index + 2))].
Proof.
  intros Hc E. unfold encodeChar in E.
  rewrite hexchar_ascii in E by exact Hc. simpl in E.
  set (hx := [hex_digit (ch / 16); hex_digit (ch mod 16)]) in *.
  destruct (search fuel hx None [] (randGen self)) as [[[rs rh] g]| |] eqn:S;
    simpl in E; try discriminate.
  apply search_spec in S. destruct S as [C [[-> ->]|[seed [b [-> [U ->]]]]]].
  - discriminate.
  - simpl in E. apply contains_find in C. destruct C as [index Ei].
    unfold cutRange in E. rewrite Ei in E. injection E as <-.
    exists seed, b, index. repeat split; assumption.
Qed.

Import Recorded.

Lemma encodeChar_records fuel self ch self' :
  (ch < 128)%N ->
  encodeChar fuel self ch = Ok self' ->
  exists line,
    records ch line /\ mangler self' = mangler self ++ [addPayloadLine line].
Proof.
  intros Hc E.
  destruct (encodeChar_spec _ _ Hc E) as [seed [b [index [U [F M]]]]].
  exists (payloadLine seed (index + 1) (index + 2)). split; [|exact M].
  exists seed, b, index. split; [exact U|]. cbn zeta.
  assert (cut_b (index + 1) (index + 2) (md5_hexdigest b)
          = slice (md5_hexdigest b) index (index + 2)) as Ecut.
  { unfold cut_b. replace (index + 1 - 1) with index by lia. reflexivity. }
  pose proof (find_slice _ _ F) as Hs. cbn [length] in Hs.
  split; [exact F|]. split; [exact Hs|]. split; [exact Ecut|].
  split; [|reflexivity].
  rewrite Ecut, Hs. apply hex_value_byte. lia.
Qed.

Lemma encodeChars_records fuel userCmd :
  ascii_str userCmd ->
  forall self self',
    encodeChars fuel self userCmd = Ok self' ->
    exists lines,
      Forall2 records userCmd lines /\
      mangler self' = mangler self ++ map addPayloadLine lines.
Proof.
  induction 1 as [|ch userCmd Hc Ha IH]; intros self self' E; simpl in E.
  - injection E as <-. exists []. split; [constructor|].
    rewrite app_nil_r. reflexivity.
  - destruct (encodeChar fuel self ch) as [self1| |] eqn:E1; simpl in E;
      try discriminate.
    destruct (encodeChar_records _ _ Hc E1) as [line [Hr M1]].
    destruct (IH _ _ E) as [lines [Hl M]].
    exists (line :: lines). split; [constructor; assumption|].
    rewrite M, M1, <- app_assoc. reflexivity.
Qed.


End WithCollaborators.
End HexFacts.

(** ** What the emitted payload relies on *)

Module RoundTrip.
Import XorNonNull GlobObfuscator PyFacts SeqFacts XorLoops.

(** The chunks, put together in the order of their indices, are the
    command. *)
Lemma chunks_from (userCmd : str) ss fuel :
  0 < ss ->
  forall start,
    length userCmd - start <= fuel ->
    concat (map (fun i => slice userCmd i (i + ss))
                (range_from fuel start (length userCmd) ss))
    = skipn start userCmd.
Proof.
  intros Hs. induction fuel as [|f IH]; intros start Hf; simpl.
  - rewrite skipn_all2 by lia. reflexivity.
  - destruct (Nat.ltb_spec start (length userCmd)) as [Hlt|Hge].
    + simpl. rewrite IH by lia. unfold slice.
      replace (start + ss - start) with ss by lia.
      replace (start + ss) with (ss + start) by lia.
      rewrite <- skipn_skipn. apply firstn_skipn.
    + rewrite skipn_all2 by lia. reflexivity.
Qed.

Lemma chunks_concat (userCmd : str) ss :
  0 < ss -> concat (chunks userCmd ss) = userCmd.
Proof.
  intros Hs. unfold chunks, range3.
  rewrite chunks_from by (assumption || lia). reflexivity.
Qed.

(** The byte array after lines 237-239, for a command of single-byte
    characters. *)
Lemma xorBytes_ascii userCmd xorKeyBytes keyLen :
  ascii_str userCmd -> 0 < keyLen -> length xorKeyBytes = keyLen ->
  exists cmdBytes,
    xorBytes userCmd xorKeyBytes keyLen = Ok cmdBytes /\
    length cmdBytes = length userCmd /\
    forall i c, nth_error userCmd i = Some c ->
      exists b, nth_error xorKeyBytes (i mod keyLen) = Some b /\
                nth_error cmdBytes i = Some (N.lxor c b).
Proof.
  intros Ha Hk Hl. unfold xorBytes. rewrite utf8_ascii by exact Ha. simpl.
  destruct (@xorLoop_spec xorKeyBytes keyLen Hk Hl (length userCmd) 0 userCmd)
    as [out [E [Hlen Hj]]]; [lia|].
  exists out. split; [exact E|]. split; [exact Hlen|].
  intros i c Ei.
  assert (i < length userCmd) as Hi by (apply nth_error_Some; congruence).
  assert (i mod keyLen < length xorKeyBytes) as Hm
    by (rewrite Hl; apply Nat.mod_upper_bound; lia).
  destruct (nth_error xorKeyBytes (i mod keyLen)) as [b|] eqn:Eb;
    [|apply nth_error_None in Eb; lia].
  exists b. split; [reflexivity|]. rewrite Hj, Ei.
  assert ((0 <=? i) = true) as -> by (apply Nat.leb_le; lia).
  assert ((i <? 0 + length userCmd) = true) as -> by (apply Nat.ltb_lt; lia).
  cbn [andb option_map]. rewrite (nth_error_nth _ _ 0%N Eb). reflexivity.
Qed.

(** XOR-ing a stored byte with its key byte again gives the character back:
    what the emitted loop computes at run time. *)
Lemma xor_decode userCmd xorKeyBytes keyLen cmdBytes :
  ascii_str userCmd -> 0 < keyLen -> length xorKeyBytes = keyLen ->
  xorBytes userCmd xorKeyBytes keyLen = Ok cmdBytes ->
  forall i c, nth_error userCmd i = Some c ->
    exists x b,
      nth_error cmdBytes i = Some x /\
      nth_error xorKeyBytes (i mod keyLen) = Some b /\
      N.lxor x b = c.
Proof.
  intros Ha Hk Hl E i c Ei.
  destruct (@xorBytes_ascii userCmd xorKeyBytes keyLen Ha Hk Hl)
    as [out [E' [_ Hx]]].
  rewrite E in E'. injection E' as <-.
  destruct (Hx i c Ei) as [b [Eb Ex]].
  exists (N.lxor c b), b. split; [exact Ex|]. split; [exact Eb|].
  rewrite N.lxor_assoc, N.lxor_nilpotent, N.lxor_0_r. reflexivity.
Qed.

End RoundTrip.

(** ** The example collaborators obey the laws *)

Module ExampleFacts.
Import Example SeqFacts.

Lemma gen_length n g : length (gen n g) = n.
Proof. revert g. induction n as [|n IH]; intros g; simpl; auto. Qed.

Lemma pick_In l g : l <> [] -> In (pick l g) l.
Proof.
  intros Hl. unfold pick. apply nth_In. apply Nat.mod_upper_bound.
  destruct l; [congruence|simpl; lia].
Qed.

Lemma gen_chars n g : Forall (fun c => In c charList) (gen n g).
Proof.
  revert g. induction n as [|n IH]; intros g; cbn [gen]; constructor.
  - apply pick_In. discriminate.
  - apply IH.
Qed.

Lemma distinct_NoDup l : distinct l = true -> NoDup l.
Proof.
  induction l as [|x r IH]; simpl; [constructor|].
  intros E. apply andb_prop in E. destruct E as [Hx Hr].
  constructor; [|apply IH; exact Hr].
  apply mem_false. destruct (mem x r); [discriminate|reflexivity].
Qed.

Lemma example_laws : RandomGenLaws R.
Proof.
  constructor.
  - intros n g. apply gen_length.
  - intros a b g. apply gen_chars.
  - intros l g Hl. apply pick_In. exact Hl.
  - apply Forall_forall. intros c Hc.
    assert (forallb (fun c => (c <? 128)%N) charList = true) as A
      by reflexivity.
    rewrite forallb_forall in A. apply N.ltb_lt. apply A. exact Hc.
  - apply distinct_NoDup. reflexivity.
Qed.

End ExampleFacts.

(** ** More on the glob encoders *)

Module GlobMore.
Section WithCollaborators.
Context {R : RandomGen} {H : Helpers}.
Import GlobObfuscator PyFacts BinFacts GlobFacts SizeFacts Bin Shell Staged.

Lemma chunks_In (userCmd : str) ss c :
  0 < ss -> In c (chunks userCmd ss) ->
  exists i, i < length userCmd /\ c = slice userCmd i (i + ss).
Proof.
  intros Hs Hc. unfold chunks in Hc. apply in_map_iff in Hc.
  destruct Hc as [i [<- Hi]]. apply range3_In in Hi; [|exact Hs].
  exists i. split; [tauto|reflexivity].
Qed.

Lemma slice_length (s : str) i j :
  length (slice s i j) = Nat.min (j - i) (length s - i).
Proof. unfold slice. rewrite length_firstn, length_skipn. reflexivity. Qed.

Lemma chunk_size (userCmd : str) ss c :
  0 < ss -> In c (chunks userCmd ss) -> 0 < length c <= ss.
Proof.
  intros Hs Hc. destruct (@chunks_In userCmd ss c Hs Hc) as [i [Hi ->]].
  rewrite slice_length. lia.
Qed.

Lemma range3_single n ss : 0 < n <= ss -> range3 0 n ss = [0].
Proof.
  intros [Hpos Hle]. unfold range3.
  destruct n as [|n]; [lia|]. cbn [range_from].
  assert ((0 <? S n) = true) as -> by (apply Nat.ltb_lt; lia).
  f_equal. destruct n as [|n]; [reflexivity|]. cbn [range_from].
  assert ((0 + ss <? S (S n)) = false) as -> by (apply Nat.ltb_ge; lia).
  reflexivity.
Qed.

(** A nonempty string no longer than the section size is its own single
    chunk. *)
Lemma chunks_single (chunk : str) ss :
  0 < length chunk <= ss -> chunks chunk ss = [chunk].
Proof.
  intros Hl. unfold chunks. rewrite range3_single by exact Hl.
  cbn [map]. unfold slice. rewrite Nat.sub_0_r. cbn [skipn].
  rewrite firstn_all2 by lia. reflexivity.
Qed.

Lemma generate_dir (self : Self) userCmd ss sd writeableDir :
  userCmd <> [] -> sectionSize self = Some ss -> 0 < ss ->
  startingDir self = Some sd ->
  let wd :=
    match writeableDir with
    | Some ((_ :: _) as d) => sd ++ lit "/" ++ escapeQuotes d
    | _ => sd
    end in
  let cmdChars := chunks userCmd ss in
  let w := Nat.max 1 (Nat.log2_up (length cmdChars)) in
  generate self userCmd writeableDir =
  Ok (call (call (call (call (set_workingDir self wd)
        (addPayloadLine (mkdirLine wd)))
        (addLinesInRandomOrder (printLines wd cmdChars w)))
        (addPayloadLine (catLine wd w)))
        (addPayloadLine (rmLine wd w))).
Proof.
  intros Hc Hss Hpos Hsd wd cmdChars w. unfold generate.
  rewrite Hsd.
  destruct writeableDir as [[|x d]|]; simpl; rewrite Hss; simpl;
    (destruct (Nat.eqb_spec ss 0) as [->|_]; [lia|]);
    rewrite indexWidth_ok by (apply chunks_nonempty; assumption);
    reflexivity.
Qed.

Lemma written_app a b : written (a ++ b) = written a ++ written b.
Proof. unfold written. apply flat_map_app. Qed.

Lemma map_seq_nth {A B} (f : A -> B) (l : list A) d :
  map (fun i => f (nth i l d)) (seq 0 (length l)) = map f l.
Proof.
  induction l as [|x l IH]; [reflexivity|].
  cbn [length]. rewrite <- cons_seq, <- seq_shift. cbn [map nth].
  f_equal. rewrite map_map. exact IH.
Qed.

Lemma printLines_data wd cmdChars w :
  map snd (printLines wd cmdChars w)
  = map (fun c => Some (escapeQuotes c)) cmdChars.
Proof.
  rewrite printLines_map, map_map. cbn [snd].
  apply (map_seq_nth (fun c => Some (escapeQuotes c))).
Qed.

(** [stageChunk] on one chunk of the command. *)
Lemma stageChunk_ok (self : Self) chunk ss sd :
  0 < length chunk <= ss ->
  sectionSize self = Some ss -> startingDir self = Some sd ->
  exists wd self',
    FolderGlob.stageChunk self chunk = Ok self' /\
    sectionSize self' = Some ss /\ startingDir self' = Some sd /\
    mangler self' = mangler self ++ chunkCalls wd chunk.
Proof.
  intros Hlen Hss Hsd. unfold FolderGlob.stageChunk.
  destruct (randUniqueStr (randGen self)) as [u g].
  assert (chunk <> []) as Hne by (destruct chunk; simpl in *; [lia|discriminate]).
  rewrite (@generate_dir (set_randGen self g) chunk ss sd (Some u) Hne Hss
             ltac:(lia) Hsd).
  rewrite chunks_single by exact Hlen.
  cbn [bind length Nat.log2_up]. simpl Nat.max.
  eexists. eexists. split; [reflexivity|].
  split; [exact Hss|]. split; [exact Hsd|].
  simpl. rewrite <- !app_assoc. reflexivity.
Qed.

Lemma stageChunks_ok ss sd cmdChunks :
  (forall c, In c cmdChunks -> 0 < length c <= ss) ->
  forall self : Self,
    sectionSize self = Some ss -> startingDir self = Some sd ->
    exists wds self',
      FolderGlob.stageChunks self cmdChunks = Ok self' /\
      startingDir self' = Some sd /\
      length wds = length cmdChunks /\
      mangler self' =
      mangler self ++
        flat_map (fun p => chunkCalls (fst p) (snd p)) (combine wds cmdChunks).
Proof.
  induction cmdChunks as [|c rest IH]; intros Hall self Hss Hsd; simpl.
  - exists [], self. repeat split; try assumption.
    rewrite app_nil_r. reflexivity.
  - destruct (@stageChunk_ok self c ss sd) as [wd [self1 [E [Hss1 [Hsd1 M1]]]]];
      [apply Hall; left; reflexivity|exact Hss|exact Hsd|].
    rewrite E. cbn [bind].
    destruct (IH (fun x Hx => Hall x (or_intror Hx)) self1 Hss1 Hsd1)
      as [wds [self' [E' [Hsd' [Hl M]]]]].
    exists (wd :: wds), self'. split; [exact E'|]. split; [exact Hsd'|].
    split; [simpl; lia|].
    rewrite M, M1, <- app_assoc. reflexivity.
Qed.

End WithCollaborators.
End GlobMore.

Module GlobBounds.
Section WithCollaborators.
Context {R : RandomGen} {H : Helpers}.
Import GlobObfuscator PyFacts BinFacts GlobFacts SizeFacts Bin Shell Staged
       GlobMore RoundTrip.

Lemma skipn_nth {A} (s : list A) start x :
  nth_error s start = Some x -> skipn start s = x :: skipn (S start) s.
Proof.
  revert s. induction start as [|n IH]; intros [|y s] E; simpl in E;
    try discriminate.
  - injection E as ->. reflexivity.
  - apply IH in E. exact E.
Qed.

Lemma singles_from (userCmd : str) fuel :
  forall start,
    length userCmd - start <= fuel ->
    map (fun i => slice userCmd i (i + 1))
        (range_from fuel start (length userCmd) 1)
    = map (fun c => [c]) (skipn start userCmd).
Proof.
  induction fuel as [|f IH]; intros start Hf; cbn [range_from].
  - rewrite skipn_all2 by lia. reflexivity.
  - destruct (Nat.ltb_spec start (length userCmd)) as [Hlt|Hge].
    + cbn [map]. rewrite IH by lia. unfold slice.
      replace (start + 1 - start) with 1 by lia.
      destruct (nth_error userCmd start) as [x|] eqn:Ex;
        [|apply nth_error_None in Ex; lia].
      rewrite (skipn_nth _ _ Ex).
      replace (start + 1) with (S start) by lia. reflexivity.
    + rewrite skipn_all2 by lia. reflexivity.
Qed.

Lemma chunks_singles (userCmd : str) :
  chunks userCmd 1 = map (fun c => [c]) userCmd.
Proof.
  unfold chunks, range3. rewrite singles_from by lia. reflexivity.
Qed.

Lemma count_le (len ss k : nat) :
  0 < ss -> len < k * ss -> (len + ss - 1) / ss <= k.
Proof.
  intros Hs Hk. pose proof (ceil_bounds len Hs) as [_ Hb].
  set (n := (len + ss - 1) / ss) in *.
  destruct (Nat.le_gt_cases n k) as [?|Hgt]; [assumption|]. exfalso.
  assert (S k * ss <= n * ss) by (apply Nat.mul_le_mono_r; lia).
  simpl in *. lia.
Qed.

Lemma written_chunkCalls wds cs :
  length wds = length cs ->
  written (flat_map (fun p => chunkCalls (fst p) (snd p)) (combine wds cs))
  = map (fun c => Some (escapeQuotes c)) cs.
Proof.
  revert wds. induction cs as [|c cs IH]; intros [|wd wds] Hl;
    simpl in Hl; try discriminate; [reflexivity|].
  cbn [combine flat_map fst snd]. rewrite written_app, IH by lia.
  reflexivity.
Qed.

Lemma NoDup_map_injective {A B} (f : A -> B) (l : list A) :
  (forall x y, f x = f y -> x = y) -> NoDup l -> NoDup (map f l).
Proof.
  intros Hf. induction 1 as [|x l Hx Hl IH]; simpl; constructor.
  - intros Hin. apply in_map_iff in Hin. destruct Hin as [y [E Hy]].
    apply Hf in E. subst y. contradiction.
  - exact IH.
Qed.

Lemma width_le n k w :
  0 < n -> n <= 2 ^ k -> 0 < k -> indexWidth n = Ok w -> w <= k.
Proof.
  intros Hn Hk Hpos E. rewrite indexWidth_ok in E by exact Hn.
  assert (w = Nat.max 1 (Nat.log2_up n)) as -> by congruence.
  apply Nat.max_lub; [exact Hpos|].
  rewrite <- (Nat.log2_up_pow2 k) by lia.
  apply Nat.log2_up_le_mono. exact Hk.
Qed.

Lemma setSizes_keeps (self : Self) userCmd :
  ~ In (sizePref self) [1; 2; 3] ->
  sectionSize (setSizes self userCmd) = sectionSize self.
Proof.
  intros Hp. unfold setSizes.
  destruct (Nat.eqb_spec (sizePref self) 1) as [E|_];
    [exfalso; apply Hp; rewrite E; simpl; auto|].
  destruct (Nat.eqb_spec (sizePref self) 2) as [E|_];
    [exfalso; apply Hp; rewrite E; simpl; auto|].
  destruct (Nat.eqb_spec (sizePref self) 3) as [E|_];
    [exfalso; apply Hp; rewrite E; simpl; auto|].
  destruct (randUniqueStr (randGen self)). reflexivity.
Qed.

End WithCollaborators.
End GlobBounds.

(** ** More on XorNonNull *)

Module XorMore.
Import XorNonNull PyFacts SeqFacts XorFacts XorLoops RoundTrip.

Lemma utf8_decode_bytes fuel b :
  length b <= fuel -> ascii_str b -> utf8_decode_fuel fuel b = Ok b.
Proof.
  revert b. induction fuel as [|f IH]; intros b Hl Ha.
  - destruct b; [reflexivity|simpl in Hl; lia].
  - destruct Ha as [|x b Hx Hb]; [reflexivity|]. cbn [utf8_decode_fuel].
    assert ((x <? 128)%N = true) as -> by (apply N.ltb_lt; exact Hx).
    rewrite IH; [reflexivity|simpl in Hl; lia|exact Hb].
Qed.

Lemma utf8_decode_ascii b : ascii_str b -> utf8_decode b = Ok b.
Proof. intros Ha. apply utf8_decode_bytes; [lia|exact Ha]. Qed.

Lemma lxor_small a b : (a < 128)%N -> (b < 128)%N -> (N.lxor a b < 128)%N.
Proof.
  intros Ha Hb. destruct (N.eq_dec (N.lxor a b) 0) as [->|Hx]; [lia|].
  change 128%N with (2 ^ 7)%N. apply N.log2_lt_pow2; [lia|].
  pose proof (N.log2_lxor a b) as Hl.
  assert (N.log2 a < 7)%N as La.
  { destruct (N.eq_dec a 0) as [->|?]; [simpl; lia|].
    apply N.log2_lt_pow2; [lia|exact Ha]. }
  assert (N.log2 b < 7)%N as Lb.
  { destruct (N.eq_dec b 0) as [->|?]; [simpl; lia|].
    apply N.log2_lt_pow2; [lia|exact Hb]. }
  lia.
Qed.

Lemma utf8_length s b : utf8 s = Ok b -> length s <= length b.
Proof.
  revert b. induction s as [|c s IH]; intros b E; simpl in E.
  - injection E as <-. simpl. lia.
  - destruct (utf8_char c) as [bc| |] eqn:Ec; simpl in E; try discriminate.
    destruct (utf8 s) as [bs| |] eqn:Es; simpl in E; try discriminate.
    injection E as <-. specialize (IH bs eq_refl).
    rewrite length_app. simpl.
    assert (0 < length bc).
    { unfold utf8_char in Ec.
      repeat match type of Ec with
             | (if ?c then _ else _) = _ => destruct c
             end; try discriminate; injection Ec as <-; simpl; lia. }
    lia.
Qed.

Section WithCollaborators.
Context {R : RandomGen} {L : RandomGenLaws R}.

(** The loop keeps the key inside the character list. *)
Lemma fixKey_chars userCmd keyLen positions :
  forall xorKeyBytes g key g',
    (forall p, In p positions -> p < length xorKeyBytes) ->
    Forall (fun c => In c _randStrCharList) xorKeyBytes ->
    fixKey userCmd keyLen positions xorKeyBytes g = Ok (Some key, g') ->
    Forall (fun c => In c _randStrCharList) key.
Proof.
  induction positions as [|j rest IH]; intros key0 g key g' Hlen Hk E;
    simpl in E.
  - injection E as <- _. exact Hk.
  - destruct (nth_error key0 j) as [b|] eqn:Eb; simpl in E; [|discriminate].
    set (nullchars := set_of (stride userCmd j keyLen)) in *.
    destruct (mem b nullchars).
    + destruct (0 <? length (charBlackList nullchars)) eqn:Ebl;
        [|discriminate].
      pose proof (@replacement _ _ nullchars g (length_pos_neq Ebl))
        as [Hc [Hu [Hv Hval]]].
      destruct (randSelect (charBlackList nullchars) g) as [c g1].
      simpl in Hc, Hu, Hv, Hval. rewrite Hu in E. simpl in E.
      rewrite Hv, Hval in E.
      apply charBlackList_In in Hc. destruct Hc as [Hc _].
      eapply IH; [| |exact E].
      * intros p Hp. rewrite set_nth_length. apply Hlen. right. exact Hp.
      * apply set_nth_Forall; assumption.
    + eapply IH; [| |exact E]; [|exact Hk].
      intros p Hp. apply Hlen. right. exact Hp.
Qed.

Lemma genXorKey_chars g keyLen userCmd key g' :
  genXorKey g keyLen userCmd = Ok (Some key, g') ->
  Forall (fun c => In c _randStrCharList) key.
Proof.
  unfold genXorKey. pose proof (key_bytes g keyLen) as [Hu [Hl Hc]].
  destruct (randGenStr (Some keyLen) (Some keyLen) g) as [s g1].
  simpl in Hu, Hl, Hc. rewrite Hu. simpl. intros E.
  eapply fixKey_chars; [| |exact E]; [|exact Hc].
  intros p Hp. apply in_seq in Hp. lia.
Qed.

(** The loop never goes past the length of the command. *)
Lemma keySearch_bound userCmd :
  2 <= length _randStrCharList ->
  forall fuel keyLen g tried fnd,
    keySearch fuel keyLen userCmd g tried = Ok fnd ->
    keyLen_of fnd <= Nat.max (keyLen + 1) (length userCmd).
Proof.
  intros Htwo. induction fuel as [|f IH]; intros keyLen g tried fnd E;
    simpl in E; [discriminate|].
  destruct (genXorKey g (keyLen + 1) userCmd) as [[r g1]| |] eqn:G;
    simpl in E; try discriminate.
  assert (forall fnd',
            r = None \/ r = Some [] ->
            keySearch f (keyLen + 1) userCmd g1 (tried ++ [keyLen + 1])
            = Ok fnd' ->
            keyLen_of fnd' <= Nat.max (keyLen + 1) (length userCmd)) as Hrec.
  { intros fnd' Hr E'.
    destruct (Nat.le_gt_cases (length userCmd) (keyLen + 1)) as [Hle|Hgt].
    - exfalso.
      destruct (@genXorKey_long _ _ g (keyLen + 1) userCmd Htwo)
        as [key [g' [E1 Hk]]]; [lia|exact Hle|].
      rewrite G in E1. injection E1 as -> _.
      destruct Hr as [Hr|Hr]; [discriminate|].
      injection Hr as ->. simpl in Hk. lia.
    - apply IH in E'. lia. }
  destruct r as [[|b key]|].
  - apply Hrec; [right; reflexivity|exact E].
  - injection E as <-. simpl. lia.
  - apply Hrec; [left; reflexivity|exact E].
Qed.

(** For a command of single-byte characters and a key of the list, the
    bytes stored by lines 237-239 are nonzero ASCII bytes. *)
Lemma xorBytes_data userCmd g keyLen key g' :
  ascii_str userCmd -> 0 < keyLen ->
  genXorKey g keyLen userCmd = Ok (Some key, g') ->
  exists cmdBytes,
    xorBytes userCmd key keyLen = Ok cmdBytes /\
    length cmdBytes = length userCmd /\
    Forall (fun x => (0 < x < 128)%N) cmdBytes.
Proof.
  intros Ha Hk E.
  destruct (genXorKey_spec g keyLen userCmd) as [r [g1 [E1 Hr]]].
  rewrite E in E1. injection E1 as <- <-.
  destruct (Hr key eq_refl) as [Hlen Hin].
  pose proof (genXorKey_chars _ _ _ E) as Hchars.
  destruct (@xorBytes_ascii userCmd key keyLen Ha Hk Hlen)
    as [cmdBytes [Ex [Hl Hx]]].
  exists cmdBytes. split; [exact Ex|]. split; [exact Hl|].
  apply Forall_forall. intros x Hin0.
  apply In_nth_error in Hin0. destruct Hin0 as [p Ep].
  assert (p < length userCmd) as Hp
    by (rewrite <- Hl; apply nth_error_Some; congruence).
  destruct (nth_error userCmd p) as [c|] eqn:Ec;
    [|apply nth_error_None in Ec; lia].
  destruct (Hx p c Ec) as [b [Eb Exor]].
  rewrite Ep in Exor. injection Exor as ->.
  assert (c < 128)%N as Hc.
  { unfold ascii_str in Ha. rewrite Forall_forall in Ha. apply Ha.
    eapply nth_error_In; exact Ec. }
  assert (b < 128)%N as Hb.
  { apply charList_byte. rewrite Forall_forall in Hchars. apply Hchars.
    eapply nth_error_In; exact Eb. }
  split; [|apply lxor_small; assumption].
  destruct (N.eq_dec (N.lxor c b) 0) as [E0|?]; [|lia]. exfalso.
  apply N.lxor_eq in E0. subst b.
  apply (Hin (p mod keyLen) c).
  - apply Nat.mod_upper_bound. lia.
  - exact Eb.
  - apply stride_In; [lia|]. exists (p / keyLen). rewrite <- Ec. f_equal.
    pose proof (Nat.div_mod_eq p keyLen). lia.
Qed.

End WithCollaborators.
End XorMore.

(** ** More on HexHash *)

Module HexMore.
Import PyFacts SeqFacts Shell HexFacts.

Lemma first_byte_small ch :
  (ch < 2048)%N -> (N.lor 192 (N.shiftr ch 6) < 256)%N.
Proof.
  intros Hc. change 256%N with (2 ^ 8)%N.
  apply N.log2_lt_pow2.
  - apply N.neq_0_lt_0. intros E.
    apply N.lor_eq_0_iff in E. destruct E; discriminate.
  - rewrite N.log2_lor. apply N.max_lub_lt; [reflexivity|].
    assert (N.log2 (N.shiftr ch 6) < 5)%N; [|lia].
    rewrite N.shiftr_div_pow2. change (2 ^ 6)%N with 64%N.
    assert (ch / 64 < 32)%N as Hq
      by (apply N.Div0.div_lt_upper_bound; lia).
    destruct (N.eq_dec (ch / 64) 0) as [->|Hnz]; [reflexivity|].
    apply N.log2_lt_pow2; [apply N.neq_0_lt_0; exact Hnz|exact Hq].
Qed.

Lemma slice_shorter (s : str) i n m :
  n <= m -> slice s i (i + n) = firstn n (slice s i (i + m)).
Proof.
  intros Hnm. unfold slice.
  replace (i + n - i) with n by lia. replace (i + m - i) with m by lia.
  rewrite firstn_firstn. replace (Nat.min n m) with n by lia. reflexivity.
Qed.

Section WithCollaborators.
Context {R : RandomGen} {H : Helpers} {D : Digest}.
Import HexHash.

Lemma encodeChar_any fuel self ch self' hx :
  hexchar ch = Ok hx -> hx <> [] ->
  encodeChar fuel self ch = Ok self' ->
  exists randomString b index,
    utf8 randomString = Ok b /\
    find (md5_hexdigest b) hx = Some index /\
    mangler self' =
    mangler self ++
      [addPayloadLine (payloadLine randomString (index + 1) (index + 2))].
Proof.
  intros Hh Hne E. unfold encodeChar in E. rewrite Hh in E. simpl in E.
  destruct (search fuel hx None [] (randGen self)) as [[[rs rh] g]| |] eqn:S;
    simpl in E; try discriminate.
  apply search_spec in S. destruct S as [C [[-> ->]|[seed [b [-> [U ->]]]]]].
  - destruct hx; [congruence|discriminate].
  - simpl in E. apply contains_find in C. destruct C as [index Ei].
    unfold cutRange in E. rewrite Ei in E. injection E as <-.
    exists seed, b, index. repeat split; assumption.
Qed.

End WithCollaborators.
End HexMore.

(** ** The calls of the two glob encoders *)

Module GlobRuns.
Section WithCollaborators.
Context {R : RandomGen} {H : Helpers}.
Import GlobObfuscator PyFacts BinFacts GlobFacts SizeFacts Bin Shell Staged
       GlobMore GlobBounds.

Lemma setSizes_randGen (self : Self) userCmd :
  randGen (setSizes self userCmd) = snd (randUniqueStr (randGen self)).
Proof.
  unfold setSizes.
  destruct (sizePref self =? 1); [|destruct (sizePref self =? 2);
    [|destruct (sizePref self =? 3)]];
    simpl; destruct (randUniqueStr (randGen self)); reflexivity.
Qed.

Lemma chunkDirs_length sd g n : length (chunkDirs sd g n) = n.
Proof.
  revert g. induction n as [|n IH]; intros g; simpl; [reflexivity|].
  destruct (randUniqueStr g). simpl. rewrite IH. reflexivity.
Qed.

(** [stageChunk] on one chunk: the directory is made from the unique string
    drawn for it. *)
Lemma stageChunk_dir (self : Self) chunk ss sd :
  0 < length chunk <= ss ->
  sectionSize self = Some ss -> startingDir self = Some sd ->
  exists self',
    FolderGlob.stageChunk self chunk = Ok self' /\
    sectionSize self' = Some ss /\ startingDir self' = Some sd /\
    randGen self' = snd (randUniqueStr (randGen self)) /\
    mangler self' =
    mangler self ++
      chunkCalls (chunkDir sd (fst (randUniqueStr (randGen self)))) chunk.
Proof.
  intros Hlen Hss Hsd. unfold FolderGlob.stageChunk.
  destruct (randUniqueStr (randGen self)) as [u g].
  assert (chunk <> []) as Hne
    by (destruct chunk; simpl in *; [lia|discriminate]).
  rewrite (@generate_dir _ _ (set_randGen self g) chunk ss sd (Some u) Hne Hss
             ltac:(lia) Hsd).
  rewrite chunks_single by exact Hlen.
  cbn [bind length Nat.log2_up]. simpl Nat.max.
  eexists. split; [reflexivity|].
  split; [exact Hss|]. split; [exact Hsd|]. split; [reflexivity|].
  destruct u; simpl; rewrite <- !app_assoc; reflexivity.
Qed.

Lemma stageChunks_dirs ss sd cmdChunks :
  (forall c, In c cmdChunks -> 0 < length c <= ss) ->
  forall self : Self,
    sectionSize self = Some ss -> startingDir self = Some sd ->
    exists self',
      FolderGlob.stageChunks self cmdChunks = Ok self' /\
      startingDir self' = Some sd /\
      mangler self' =
      mangler self ++
        flat_map (fun p => chunkCalls (fst p) (snd p))
                 (combine (chunkDirs sd (randGen self) (length cmdChunks))
                          cmdChunks).
Proof.
  induction cmdChunks as [|c rest IH]; intros Hall self Hss Hsd.
  - exists self. split; [reflexivity|]. split; [exact Hsd|].
    simpl. rewrite app_nil_r. reflexivity.
  - destruct (@stageChunk_dir self c ss sd)
      as [self1 [E [Hss1 [Hsd1 [Hg1 M1]]]]];
      [apply Hall; left; reflexivity|exact Hss|exact Hsd|].
    cbn [FolderGlob.stageChunks]. rewrite E. cbn [bind].
    destruct (IH (fun x Hx => Hall x (or_intror Hx)) self1 Hss1 Hsd1)
      as [self' [E' [Hsd' M]]].
    exists self'. split; [exact E'|]. split; [exact Hsd'|].
    rewrite M, M1, Hg1, <- app_assoc. cbn [length chunkDirs].
    destruct (randUniqueStr (randGen self)) as [u g]. reflexivity.
Qed.

(** All the calls of [FolderGlob.mutate]. *)
Lemma FolderGlob_calls (self : Self) userCmd :
  In (sizePref self) [1; 2; 3] ->
  let ss := if sizePref self =? 1 then length userCmd / 10 + 1
            else if sizePref self =? 2 then length userCmd / 100 + 1
            else 1 in
  let sd :=
    escapeQuotes (writeDir self ++ fst (randUniqueStr (randGen self))) in
  let g := snd (randUniqueStr (randGen self)) in
  exists payload self',
    FolderGlob.mutate self userCmd = Ok (payload, self') /\
    payload = getFinalPayload (mangler self') /\
    mangler self' =
    mangler self ++
      flat_map (fun p => chunkCalls (fst p) (snd p))
               (combine (chunkDirs sd g (length (chunks userCmd ss)))
                        (chunks userCmd ss))
      ++ [addPayloadLine (FolderGlob.rmdirLine sd)].
Proof.
  intros Hp ss sd g.
  pose proof (setSizes_sectionSize self userCmd Hp) as Hss. fold ss in Hss.
  assert (0 < ss) as Hpos.
  { unfold ss. destruct (sizePref self =? 1); [lia|].
    destruct (sizePref self =? 2); lia. }
  pose proof (setSizes_startingDir self userCmd) as Hsd. fold sd in Hsd.
  destruct (@stageChunks_dirs ss sd (chunks userCmd ss)
              (fun c Hc => @chunk_size userCmd ss c Hpos Hc)
              (setSizes self userCmd) Hss Hsd)
    as [self1 [E [Hsd1 M]]].
  unfold FolderGlob.mutate. rewrite Hss. cbn [attr bind].
  destruct (Nat.eqb_spec ss 0) as [?|_]; [lia|].
  rewrite E. cbn [bind]. rewrite Hsd1. cbn [attr bind].
  eexists _, _. split; [reflexivity|]. split; [reflexivity|].
  simpl. rewrite M, setSizes_mangler, setSizes_randGen, <- app_assoc.
  reflexivity.
Qed.

(** All the calls of [FileGlob.mutate] on a nonempty command. *)
Lemma FileGlob_calls (self : Self) userCmd :
  userCmd <> [] -> In (sizePref self) [1; 2; 3] ->
  let ss := if sizePref self =? 1 then length userCmd / 10 + 1
            else if sizePref self =? 2 then length userCmd / 100 + 1
            else 1 in
  let sd :=
    escapeQuotes (writeDir self ++ fst (randUniqueStr (randGen self))) in
  let cmdChars := chunks userCmd ss in
  let w := Nat.max 1 (Nat.log2_up (length cmdChars)) in
  exists payload self',
    FileGlob.mutate self userCmd = Ok (payload, self') /\
    payload = getFinalPayload (mangler self') /\
    mangler self' =
    mangler self ++
      [addPayloadLine (mkdirLine sd);
       addLinesInRandomOrder
         (map (fun i => (printfLine sd i w,
                         Some (escapeQuotes (nth i cmdChars []))))
              (seq 0 (length cmdChars)));
       addPayloadLine (catLine sd w);
       addPayloadLine (rmLine sd w);
       addPayloadLine (FileGlob.rmdirLine sd)].
Proof.
  intros Hc Hp ss sd cmdChars w.
  pose proof (setSizes_sectionSize self userCmd Hp) as Hss. fold ss in Hss.
  assert (0 < ss) as Hpos.
  { unfold ss. destruct (sizePref self =? 1); [lia|].
    destruct (sizePref self =? 2); lia. }
  unfold FileGlob.mutate.
  rewrite (@generate_ok _ _ (setSizes self userCmd) userCmd ss sd Hc Hss Hpos
             (setSizes_startingDir self userCmd)).
  cbn [bind]. simpl workingDir. cbn [attr bind].
  eexists _, _. split; [reflexivity|]. split; [reflexivity|].
  simpl. rewrite setSizes_mangler, printLines_map, <- !app_assoc.
  reflexivity.
Qed.

End WithCollaborators.
End GlobRuns.

(** ** The lines of the digest search *)

Module HexLines.
Import PyFacts SeqFacts Shell HexFacts HexMore.

Lemma utf8_char_nonempty c b : utf8_char c = Ok b -> b <> [].
Proof.
  unfold utf8_char. intros E.
  repeat match type of E with
         | (if ?c then _ else _) = _ => destruct c
         end; try discriminate; injection E as <-; discriminate.
Qed.

Section WithCollaborators.
Context {R : RandomGen} {H : Helpers} {D : Digest}.
Import HexHash Recorded.

(** The body of the loop hands the mangler one line, whatever the
    character; for an ASCII character the line records its byte. *)
Lemma encodeChar_line fuel self ch self' :
  encodeChar fuel self ch = Ok self' ->
  exists line,
    ((ch < 128)%N -> records ch line) /\
    mangler self' = mangler self ++ [addPayloadLine line].
Proof.
  intros E. destruct (N.ltb_spec ch 128) as [Hc|Hc].
  - apply encodeChar_records in E; [|exact Hc].
    destruct E as [line [Hr M]]. exists line. split; [intros _; exact Hr|exact M].
  - destruct (hexchar ch) as [hx| |] eqn:Hh;
      try (unfold encodeChar in E; rewrite Hh in E; discriminate).
    assert (hx <> []) as Hne.
    { unfold hexchar in Hh.
      destruct (utf8_char ch) as [b| |] eqn:Hu; try discriminate.
      apply utf8_char_nonempty in Hu. injection Hh as <-.
      destruct b; [congruence|discriminate]. }
    eapply encodeChar_any in E; [|exact Hh|exact Hne].
    destruct E as [seed [b [index [_ [_ M]]]]].
    eexists. split; [intros; lia|exact M].
Qed.

Lemma encodeChars_lines fuel userCmd :
  forall self self',
    encodeChars fuel self userCmd = Ok self' ->
    exists lines,
      Forall2 (fun ch line => (ch < 128)%N -> records ch line)
              userCmd lines /\
      mangler self' = mangler self ++ map addPayloadLine lines.
Proof.
  induction userCmd as [|ch userCmd IH]; intros self self' E; simpl in E.
  - injection E as <-. exists []. split; [constructor|].
    rewrite app_nil_r. reflexivity.
  - destruct (encodeChar fuel self ch) as [self1| |] eqn:E1; simpl in E;
      try discriminate.
    apply encodeChar_line in E1. destruct E1 as [line [Hr M1]].
    destruct (IH _ _ E) as [lines [Hl M]].
    exists (line :: lines). split; [constructor; assumption|].
    rewrite M, M1, <- app_assoc. reflexivity.
Qed.

End WithCollaborators.
End HexLines.

(** * The claims *)

Import GlobObfuscator XorNonNull HexHash Bin Shell.
Import PyFacts BinFacts GlobFacts SizeFacts SeqFacts XorFacts XorLoops
       HexFacts RoundTrip ExampleFacts Recorded.
Import Staged GlobMore GlobBounds GlobRuns XorMore HexMore HexLines.
Import Example.

(** C1.  Whatever the target interpreter does with a payload, the round
    trip fails for [FileGlob] at the empty command: [mutate] returns no
    payload there. *)
Theorem C1_no_payload_for_empty_command :
  forall (R : RandomGen) (H : Helpers) (interpret : str -> option str)
         (self : Self),
    ~ exists payload self',
        FileGlob.mutate self [] = Ok (payload, self') /\
        interpret payload = Some [].
Proof.
  intros R H interpret self [payload [self' [E _]]].
  unfold FileGlob.mutate in E.
  destruct (generate (setSizes self []) [] None) eqn:G; simpl in E;
    try discriminate.
  eapply generate_empty; exact G.
Qed.

(** C2.  The code breaks the claim.  In a chunk file name every binary
    digit '0' of the index becomes '?', which as a pattern matches any one
    character, but every digit '1' becomes the newline character (byte 10),
    which in byte order sorts strictly before '?' (byte 63), not after it.
    For a nonempty command of fewer than 2^29 chunks the names are pairwise
    distinct, have the length of the index width and match the read
    pattern, and compared byte by byte they are in the reverse of the
    numeric order of the chunk indices; they are in the numeric order only
    under a character order that puts '?' before newline.  For "id" the two
    names are "?" and newline, and the name of chunk 1 sorts first. *)
Theorem C2_file_names_and_their_order :
  forall n w i j : nat,
    0 < n -> (N.of_nat n < 2 ^ 29)%N -> indexWidth n = Ok w ->
    i < n -> j < n ->
    fileName i w = map (sub 63 10) (format_0b i w) /\
    Forall bit (format_0b i w) /\
    (forall name, glob_match [63%N] name = true <-> exists c, name = [c]) /\
    length (fileName i w) = w /\
    glob_match (repeat 63%N w) (fileName i w) = true /\
    (fileName i w = fileName j w -> i = j) /\
    (10 <? 63)%N = true /\
    (lex_ltb N.ltb (fileName i w) (fileName j w) = true <-> j < i) /\
    (forall clt : N -> N -> bool,
        clt 63%N 63%N = false -> clt 10%N 10%N = false ->
        clt 63%N 10%N = true -> clt 10%N 63%N = false ->
        (lex_ltb clt (fileName i w) (fileName j w) = true <-> i < j)) /\
    indexWidth 2 = Ok 1 /\
    fileName 0 1 = [63%N] /\ fileName 1 1 = [10%N] /\
    lex_ltb N.ltb (fileName 1 1) (fileName 0 1) = true /\
    lex_ltb N.ltb (fileName 0 1) (fileName 1 1) = false.
Proof.
  intros n w i j Hn _ Hw Hi Hj.
  rewrite indexWidth_ok in Hw by exact Hn. injection Hw as <-.
  pose proof (width_fits Hn) as Hfit.
  set (w := Nat.max 1 (Nat.log2_up n)) in *.
  assert (0 < w) as Hpos by (unfold w; lia).
  assert (i < 2 ^ w) as Hi' by lia.
  assert (j < 2 ^ w) as Hj' by lia.
  pose proof (fileName_length Hi' Hpos) as Hlen.
  split; [apply fileName_sub|].
  split; [apply format_0b_bits|].
  split; [intros name; apply glob_one|].
  split; [exact Hlen|].
  split; [pose proof (glob_match_wild (fileName i w)) as G;
          rewrite Hlen in G; exact G|].
  split; [apply fileName_inj|].
  split; [reflexivity|].
  split; [|split; [|repeat split]].
  - rewrite fileName_lex by (assumption || reflexivity).
    split.
    + intros [[E _]|[_ E]]; [discriminate|exact E].
    + intros E. right. split; [reflexivity|exact E].
  - intros clt Hz Ho Hzo Hoz.
    rewrite fileName_lex by assumption.
    split.
    + intros [[_ E]|[E _]]; [exact E|congruence].
    + intros E. left. split; assumption.
Qed.

Lemma C2_witness :
  0 < 2 /\ (N.of_nat 2 < 2 ^ 29)%N /\ indexWidth 2 = Ok 1 /\ 0 < 2 /\ 1 < 2 /\
  (lex_ltb N.ltb (fileName 0 1) (fileName 1 1) = true <-> 1 < 0).
Proof.
  assert (0 < 2) as H0 by lia.
  assert (1 < 2) as H1 by lia.
  assert (N.of_nat 2 < 2 ^ 29)%N as Hb by reflexivity.
  assert (indexWidth 2 = Ok 1) as Hw by reflexivity.
  repeat split; try assumption;
    apply (@C2_file_names_and_their_order 2 1 0 1 H0 Hb Hw H0 H1).
Defined.

(** C3, as the code has it.  A key returned by [genXorKey] has the requested
    length, and at no position [i] does its byte equal a character of the
    command at [i], [i + keyLen], [i + 2 keyLen], ...; hence, for a command
    of single-byte (ASCII) characters, lines 237-239 store at every position
    the XOR of the command character and its key byte, and no stored byte is
    zero. *)
Theorem C3_key_avoids_strides :
  forall (R : RandomGen) (L : RandomGenLaws R) (g : rng) (keyLen : nat)
         (userCmd : str) (key : bytes) (g' : rng),
    genXorKey g keyLen userCmd = Ok (Some key, g') ->
    length key = keyLen /\
    (forall i j b c,
        i < keyLen -> nth_error key i = Some b ->
        nth_error userCmd (i + j * keyLen) = Some c -> c <> b) /\
    (ascii_str userCmd -> 0 < keyLen ->
     exists cmdBytes,
       xorBytes userCmd key keyLen = Ok cmdBytes /\
       length cmdBytes = length userCmd /\
       (forall i c, nth_error userCmd i = Some c ->
          exists b, nth_error key (i mod keyLen) = Some b /\
                    nth_error cmdBytes i = Some (N.lxor c b)) /\
       ~ In 0%N cmdBytes).
Proof.
  intros R L g keyLen userCmd key g' E.
  destruct (genXorKey_spec g keyLen userCmd) as [r [g1 [E1 Hr]]].
  rewrite E in E1. injection E1 as <- <-.
  destruct (Hr key eq_refl) as [Hlen Hin].
  assert (forall i j b c,
             i < keyLen -> nth_error key i = Some b ->
             nth_error userCmd (i + j * keyLen) = Some c -> c <> b) as Hstride.
  { intros i j b c Hi Eb Ec ->. apply (Hin i b Hi Eb).
    apply stride_In; [lia|]. exists j. exact Ec. }
  split; [exact Hlen|]. split; [exact Hstride|].
  intros Ha Hk.
  destruct (@xorBytes_ascii userCmd key keyLen Ha Hk Hlen) as [cmdBytes [Ex [Hl Hx]]].
  exists cmdBytes. split; [exact Ex|]. split; [exact Hl|].
  split; [exact Hx|].
  intros H0. apply In_nth_error in H0. destruct H0 as [p Ep].
  assert (p < length userCmd) as Hp
    by (rewrite <- Hl; apply nth_error_Some; congruence).
  destruct (nth_error userCmd p) as [c|] eqn:Ec;
    [|apply nth_error_None in Ec; lia].
  destruct (Hx p c Ec) as [b [Eb Exor]].
  rewrite Ep in Exor. injection Exor as Exor.
  symmetry in Exor. apply N.lxor_eq in Exor.
  apply (@Hstride (p mod keyLen) (p / keyLen) b c).
  - apply Nat.mod_upper_bound. lia.
  - exact Eb.
  - rewrite <- Ec. f_equal.
    pose proof (Nat.div_mod_eq p keyLen). lia.
  - exact Exor.
Qed.

Lemma C3_witness :
  RandomGenLaws R /\
  genXorKey (0 : rng) 2 (lit "ls -la") = Ok (Some (lit "ab"), (7 : rng)) /\
  xorBytes (lit "ls -la") (lit "ab") 2 = Ok [13; 17; 65; 79; 13; 3]%N /\
  ~ In 0%N [13; 17; 65; 79; 13; 3]%N.
Proof.
  assert (genXorKey (0 : rng) 2 (lit "ls -la")
          = Ok (Some (lit "ab"), (7 : rng))) as E by reflexivity.
  destruct (@C3_key_avoids_strides R example_laws _ _ _ _ _ E)
    as [_ [_ Hx]].
  assert (ascii_str (lit "ls -la")) as Ha
    by (repeat constructor).
  destruct (Hx Ha ltac:(lia)) as [cmdBytes [Ex [_ [_ Hz]]]].
  split; [exact example_laws|]. split; [exact E|].
  assert (xorBytes (lit "ls -la") (lit "ab") 2 = Ok [13; 17; 65; 79; 13; 3]%N)
    as Ev by reflexivity.
  split; [exact Ev|].
  rewrite Ev in Ex. injection Ex as <-. exact Hz.
Defined.

(** C3 as stated fails for a command with a two-byte character: for the
    command "éab" the retry loop of [mutate] at size preference 1 first
    tries length 2, [genXorKey] returns the key "ab" (no character of a
    stride equals its key byte), and line 239 then stores a zero byte at
    position 2, where the byte of "a" meets the key byte "a". *)
Lemma C3_counterexample :
  initKeyLen 1 [233; 97; 98]%N = Ok 1 /\
  genXorKey (62 : rng) 2 [233; 97; 98]%N = Ok (Some [97; 98]%N, (69 : rng)) /\
  stride [233; 97; 98]%N 0 2 = [233; 98]%N /\
  stride [233; 97; 98]%N 1 2 = [97]%N /\
  xorBytes [233; 97; 98]%N [97; 98]%N 2 = Ok [162; 203; 0; 98]%N /\
  In 0%N [162; 203; 0; 98]%N.
Proof. repeat split. simpl. auto. Qed.

(** C4.  For the empty command [FileGlob.mutate] finds zero chunks and then
    raises [ValueError] in [math.log(0, 2)], before any line is handed to the
    mangler: neither the directory lines nor a payload are produced. *)
Theorem C4_FileGlob_empty_command_raises :
  forall (R : RandomGen) (H : Helpers) (self : Self),
    In (sizePref self) [1; 2; 3] ->
    (forall ss, chunks [] ss = []) /\
    FileGlob.mutate self [] = Raise ValueError.
Proof.
  intros R H self Hp. split; [reflexivity|].
  unfold FileGlob.mutate, generate.
  rewrite setSizes_startingDir. simpl.
  destruct (setSizes_sectionSize_pos self [] Hp) as [ss [-> Hpos]]. simpl.
  destruct (Nat.eqb_spec ss 0); [lia|]. reflexivity.
Qed.

Lemma C4_witness :
  In (sizePref (self0 3 0)) [1; 2; 3] /\
  FileGlob.mutate (self0 3 0) [] = Raise ValueError.
Proof.
  assert (In (sizePref (self0 3 0)) [1; 2; 3]) as Hp
    by (simpl; auto).
  split; [exact Hp|].
  apply (@C4_FileGlob_empty_command_raises R H _ Hp).
Defined.

(** C5, as the code has it.  The key length starts at
    [floor(len / 100) + 1], [floor(len / 10) + 1] or [len] for size
    preference 1, 2 or 3; the retry loop adds one to it before every call of
    [genXorKey], the first one included, so the lengths tried are
    [start + 1], [start + 2], ... and the loop ends with the last of them.
    For "ls -la" at preference 1 the start is 1 and the first length tried
    is 2. *)
Theorem C5_initial_key_length :
  forall (R : RandomGen) (userCmd : str),
    initKeyLen 1 userCmd = Ok (length userCmd / 100 + 1) /\
    initKeyLen 2 userCmd = Ok (length userCmd / 10 + 1) /\
    initKeyLen 3 userCmd = Ok (length userCmd) /\
    (forall sizePref start fuel (g : rng) fnd,
        initKeyLen sizePref userCmd = Ok start ->
        keySearch fuel start userCmd g [] = Ok fnd ->
        exists m,
          tried_of fnd = seq (start + 1) (S m) /\
          keyLen_of fnd = start + S m) /\
    initKeyLen 1 (lit "ls -la") = Ok 1 /\
    (forall fuel (g : rng) fnd,
        keySearch fuel 1 (lit "ls -la") g [] = Ok fnd ->
        hd_error (tried_of fnd) = Some 2).
Proof.
  intros R userCmd.
  split; [reflexivity|]. split; [reflexivity|]. split; [reflexivity|].
  split; [|split; [reflexivity|]].
  - intros sizePref start fuel g fnd _ E.
    destruct (keySearch_tried _ _ _ _ _ E) as [m [Ht [Hk _]]].
    exists m. split; [exact Ht|exact Hk].
  - intros fuel g fnd E.
    destruct (keySearch_tried _ _ _ _ _ E) as [m [Ht _]].
    rewrite Ht. reflexivity.
Qed.

Lemma C5_witness :
  initKeyLen 1 (lit "ls -la") = Ok 1 /\
  keySearch 1 1 (lit "ls -la") (5 : rng) []
  = Ok (mkFound 2 (lit "fg") (12 : rng) [2]) /\
  exists m, [2] = seq (1 + 1) (S m) /\ 2 = 1 + S m.
Proof.
  assert (initKeyLen 1 (lit "ls -la") = Ok 1) as Es by reflexivity.
  assert (keySearch 1 1 (lit "ls -la") (5 : rng) []
          = Ok (mkFound 2 (lit "fg") (12 : rng) [2])) as E by reflexivity.
  split; [exact Es|]. split; [exact E|].
  destruct (@C5_initial_key_length R (lit "ls -la")) as [_ [_ [_ [Hs _]]]].
  apply (Hs 1 1 1 5 _ Es E).
Defined.

(** C5 as stated fails for "ls -la" at size preference 1: the start is 1,
    not [ceil(6 / 100) + 1 = 2], and the first length at which a key is
    generated is 2, not the start. *)
Lemma C5_counterexample :
  initKeyLen 1 (lit "ls -la") = Ok 1 /\
  (length (lit "ls -la") + 100 - 1) / 100 + 1 = 2 /\
  exists fnd,
    keySearch 1 1 (lit "ls -la") (5 : rng) [] = Ok fnd /\
    tried_of fnd = [2] /\ keyLen_of fnd = 2.
Proof.
  split; [reflexivity|]. split; [reflexivity|].
  eexists. split; [reflexivity|]. split; reflexivity.
Qed.

(** C6, as the code has it.  For a nonempty command of fewer than 2^29
    characters and a size preference of 1, 2 or 3, both glob encoders split
    the command into [n] chunks, [n] the ceiling of
    [len(command) / sectionSize].  [FileGlob.mutate] stages them in one
    directory and its read and delete lines carry exactly
    [max(1, ceil(log2 n))] wildcards.  [FolderGlob.mutate] stages every
    chunk by a [generate] of its own, which sees one chunk: each of its
    read and delete lines carries exactly one wildcard, whatever [n].  For
    the command "id" at size preference 3, [FileGlob.mutate] uses section
    size 1, two chunks, index width 1, and the two distinct one-character
    file names "?" and newline. *)
Theorem C6_chunk_count_and_index_width :
  forall (R : RandomGen) (H : Helpers) (self : Self) (userCmd : str),
    userCmd <> [] -> In (sizePref self) [1; 2; 3] ->
    (N.of_nat (length userCmd) < 2 ^ 29)%N ->
    let ss := if sizePref self =? 1 then length userCmd / 10 + 1
              else if sizePref self =? 2 then length userCmd / 100 + 1
              else 1 in
    let sd :=
      escapeQuotes (writeDir self ++ fst (randUniqueStr (randGen self))) in
    let g := snd (randUniqueStr (randGen self)) in
    let cmdChars := chunks userCmd ss in
    let n := length cmdChars in
    let w := Nat.max 1 (Nat.log2_up n) in
    sectionSize (setSizes self userCmd) = Some ss /\
    (length userCmd <= n * ss < length userCmd + ss) /\
    (N.of_nat n < 2 ^ 29)%N /\
    (exists payload self',
        FileGlob.mutate self userCmd = Ok (payload, self') /\
        mangler self' =
        mangler self ++
          [addPayloadLine (mkdirLine sd);
           addLinesInRandomOrder
             (map (fun i => (printfLine sd i w,
                             Some (escapeQuotes (nth i cmdChars []))))
                  (seq 0 n));
           addPayloadLine
             (lit "* *:cat:^ ^'" ++ sd ++ lit "'/" ++ repeat 63%N w
                ++ lit "* *END0");
           addPayloadLine
             (lit "* *:rm:^ ^'" ++ sd ++ lit "'/" ++ repeat 63%N w
                ++ lit "* *END0");
           addPayloadLine (FileGlob.rmdirLine sd)]) /\
    (exists payload self',
        FolderGlob.mutate self userCmd = Ok (payload, self') /\
        mangler self' =
        mangler self ++
          flat_map
            (fun p =>
               [addPayloadLine (mkdirLine (fst p));
                addLinesInRandomOrder
                  [(printfLine (fst p) 0 1, Some (escapeQuotes (snd p)))];
                addPayloadLine
                  (lit "* *:cat:^ ^'" ++ fst p ++ lit "'/" ++ [63%N]
                     ++ lit "* *END0");
                addPayloadLine
                  (lit "* *:rm:^ ^'" ++ fst p ++ lit "'/" ++ [63%N]
                     ++ lit "* *END0");
                addPayloadLine (FolderGlob.rmdirChunkLine (fst p))])
            (combine (chunkDirs sd g n) cmdChars)
          ++ [addPayloadLine (FolderGlob.rmdirLine sd)]) /\
    (forall self3 : Self,
        sizePref self3 = 3 ->
        let sd3 :=
          escapeQuotes (writeDir self3 ++ fst (randUniqueStr (randGen self3))) in
        sectionSize (setSizes self3 (lit "id")) = Some 1 /\
        chunks (lit "id") 1 = [lit "i"; lit "d"] /\
        indexWidth 2 = Ok 1 /\
        fileName 0 1 = [63%N] /\ fileName 1 1 = [10%N] /\
        fileName 0 1 <> fileName 1 1 /\
        exists payload self',
          FileGlob.mutate self3 (lit "id") = Ok (payload, self') /\
          mangler self' =
          mangler self3 ++
            [addPayloadLine (mkdirLine sd3);
             addLinesInRandomOrder
               [(printfLine sd3 0 1, Some (escapeQuotes (lit "i")));
                (printfLine sd3 1 1, Some (escapeQuotes (lit "d")))];
             addPayloadLine (catLine sd3 1);
             addPayloadLine (rmLine sd3 1);
             addPayloadLine (FileGlob.rmdirLine sd3)]).
Proof.
  intros R H self userCmd Hc Hp Hsmall ss sd g cmdChars n w.
  pose proof (setSizes_sectionSize self userCmd Hp) as Hss. fold ss in Hss.
  assert (0 < ss) as Hpos.
  { unfold ss. destruct (sizePref self =? 1); [lia|].
    destruct (sizePref self =? 2); lia. }
  assert (length userCmd <= n * ss < length userCmd + ss) as Hn.
  { unfold n, cmdChars. rewrite chunks_length by exact Hpos.
    apply ceil_bounds. exact Hpos. }
  split; [exact Hss|]. split; [exact Hn|]. split.
  { assert (n <= length userCmd) as Hle by nia.
    apply N.le_lt_trans with (m := N.of_nat (length userCmd));
      [lia|exact Hsmall]. }
  split; [|split].
  - destruct (FileGlob_calls self Hc Hp) as [payload [self' [E [_ M]]]].
    exists payload, self'. split; [exact E|exact M].
  - destruct (FolderGlob_calls self userCmd Hp)
      as [payload [self' [E [_ M]]]].
    exists payload, self'. split; [exact E|exact M].
  - intros self3 Hp3 sd3.
    assert (In (sizePref self3) [1; 2; 3]) as Hin by (rewrite Hp3; simpl; auto).
    pose proof (setSizes_sectionSize self3 (lit "id") Hin) as Hs3.
    rewrite Hp3 in Hs3. simpl in Hs3.
    repeat split; try reflexivity; try exact Hs3.
    + discriminate.
    + destruct (@FileGlob_calls _ _ self3 (lit "id") ltac:(discriminate) Hin)
        as [payload [self' [E [_ M]]]].
      rewrite Hp3 in M. exists payload, self'. split; [exact E|exact M].
Qed.

Lemma C6_witness :
  lit "id" <> [] /\ In (sizePref (self0 3 0)) [1; 2; 3] /\
  (N.of_nat (length (lit "id")) < 2 ^ 29)%N /\
  sectionSize (setSizes (self0 3 0) (lit "id")) = Some 1 /\
  (length (lit "id") <= 2 * 1 < length (lit "id") + 1).
Proof.
  assert (lit "id" <> []) as Hc by discriminate.
  assert (In (sizePref (self0 3 0)) [1; 2; 3]) as Hp by (simpl; auto).
  assert (N.of_nat (length (lit "id")) < 2 ^ 29)%N as Hs by reflexivity.
  split; [exact Hc|]. split; [exact Hp|]. split; [exact Hs|].
  destruct (@C6_chunk_count_and_index_width R H (self0 3 0) (lit "id")
              Hc Hp Hs) as [Hss [Hb _]].
  split; [exact Hss|exact Hb].
Defined.

(** C6 as stated fails for [FolderGlob]: the command "abc" at size
    preference 3 is split into three chunks, for which the claimed index
    width is 2, but every read and delete line of the payload carries one
    wildcard and every chunk is written to the file "?" of its own
    directory. *)
Lemma C6_counterexample :
  length (chunks (lit "abc") 1) = 3 /\
  Nat.max 1 (Nat.log2_up 3) = 2 /\
  exists payload self',
    FolderGlob.mutate (self0 3 0) (lit "abc") = Ok (payload, self') /\
    mangler self' =
    chunkCalls (lit "/tmp/u0/u1") (lit "a")
      ++ chunkCalls (lit "/tmp/u0/u2") (lit "b")
      ++ chunkCalls (lit "/tmp/u0/u3") (lit "c")
      ++ [addPayloadLine (FolderGlob.rmdirLine (lit "/tmp/u0"))] /\
    nth 2 (mangler self') addJunk
    = addPayloadLine (lit "* *:cat:^ ^'/tmp/u0/u1'/?* *END0") /\
    nth 7 (mangler self') addJunk
    = addPayloadLine (lit "* *:cat:^ ^'/tmp/u0/u2'/?* *END0") /\
    nth 12 (mangler self') addJunk
    = addPayloadLine (lit "* *:cat:^ ^'/tmp/u0/u3'/?* *END0") /\
    ~ In (addPayloadLine (catLine (lit "/tmp/u0/u1") 2)) (mangler self').
Proof.
  split; [reflexivity|]. split; [reflexivity|].
  eexists _, _. split; [vm_compute; reflexivity|].
  split; [vm_compute; reflexivity|].
  split; [vm_compute; reflexivity|].
  split; [vm_compute; reflexivity|].
  split; [vm_compute; reflexivity|].
  vm_compute. intros Hin.
  repeat (destruct Hin as [Hin|Hin]; [discriminate|]). exact Hin.
Qed.

(** C7.  If at some key position the characters of the stride are exactly
    the characters of the list, [genXorKey] returns [None] and raises
    nothing; and whenever [genXorKey] returns [None] for the length
    [keyLen + 1], a run of the retry loop from [keyLen] goes on from
    [keyLen + 1], whose next call is made with [keyLen + 2]. *)
Theorem C7_full_stride_gives_None :
  forall (R : RandomGen) (L : RandomGenLaws R) (userCmd : str),
    (forall (g : rng) keyLen i,
        i < keyLen ->
        (forall c, In c (stride userCmd i keyLen) <-> In c _randStrCharList) ->
        exists g', genXorKey g keyLen userCmd = Ok (None, g')) /\
    (forall fuel keyLen (g g' : rng) tried,
        genXorKey g (keyLen + 1) userCmd = Ok (None, g') ->
        keySearch (S fuel) keyLen userCmd g tried
        = keySearch fuel (keyLen + 1) userCmd g' (tried ++ [keyLen + 1])) /\
    (forall fuel keyLen (g g' g'' : rng) tried r,
        genXorKey g (keyLen + 1) userCmd = Ok (None, g') ->
        genXorKey g' (keyLen + 1 + 1) userCmd = Ok (r, g'') ->
        keySearch (S (S fuel)) keyLen userCmd g tried
        = match r with
          | Some ((_ :: _) as key) =>
              Ok (mkFound (keyLen + 1 + 1) key g''
                          ((tried ++ [keyLen + 1]) ++ [keyLen + 1 + 1]))
          | _ => keySearch fuel (keyLen + 1 + 1) userCmd g''
                           ((tried ++ [keyLen + 1]) ++ [keyLen + 1 + 1])
          end).
Proof.
  intros R L userCmd. split; [|split].
  - intros g keyLen i Hi Hfull.
    apply genXorKey_full with (i := i); [exact Hi|].
    intros c Hc. apply Hfull. exact Hc.
  - intros fuel keyLen g g' tried E. simpl. rewrite E. reflexivity.
  - intros fuel keyLen g g' g'' tried r E E'.
    cbn [keySearch]. rewrite E. cbn [bind]. rewrite E'. reflexivity.
Qed.

Lemma C7_witness :
  RandomGenLaws R /\
  (forall c, In c (stride charList 0 1) <-> In c _randStrCharList) /\
  genXorKey (0 : rng) 1 charList = Ok (None, (7 : rng)) /\
  exists g', genXorKey (0 : rng) 1 charList = Ok (None, g').
Proof.
  assert (forall c, In c (stride charList 0 1) <-> In c _randStrCharList)
    as Hfull.
  { intros c. assert (stride charList 0 1 = charList) as -> by reflexivity.
    reflexivity. }
  split; [exact example_laws|]. split; [exact Hfull|].
  split; [reflexivity|].
  destruct (@C7_full_stride_gives_None R example_laws charList) as [Hn _].
  apply (Hn 0 1 0); [lia|exact Hfull].
Defined.

(** C8.  With a character list of at least two characters, the retry loop
    of [mutate] returns for every command (drawn from the list or not) once
    its fuel exceeds the length of the command: the lengths tried are
    [start + 1], [start + 2], ..., each one more than the one before, and
    the last of them gave a key of that length. *)
Theorem C8_key_search_terminates :
  forall (R : RandomGen) (L : RandomGenLaws R) (sizePref : nat)
         (userCmd : str) (g : rng) (fuel : nat),
    2 <= length _randStrCharList ->
    In sizePref [1; 2; 3] ->
    length userCmd < fuel ->
    exists start fnd m,
      initKeyLen sizePref userCmd = Ok start /\
      keySearch fuel start userCmd g [] = Ok fnd /\
      tried_of fnd = seq (start + 1) (S m) /\
      (forall a b x y,
          a < b -> nth_error (tried_of fnd) a = Some x ->
          nth_error (tried_of fnd) b = Some y -> x < y) /\
      keyLen_of fnd = start + S m /\
      length (key_of fnd) = keyLen_of fnd /\
      exists g0,
        genXorKey g0 (keyLen_of fnd) userCmd
        = Ok (Some (key_of fnd), rng_of fnd).
Proof.
  intros R L sizePref userCmd g fuel Htwo Hp Hfuel.
  assert (exists start, initKeyLen sizePref userCmd = Ok start) as [start Es].
  { destruct Hp as [<-|[<-|[<-|[]]]]; eexists; reflexivity. }
  destruct (@keySearch_returns R L userCmd Htwo fuel start g [])
    as [fnd E]; [lia|lia|].
  destruct (keySearch_tried _ _ _ _ _ E) as [m [Ht [Hk [Hne [g0 Hg]]]]].
  change (tried_of fnd = seq (start + 1) (S m)) in Ht.
  exists start, fnd, m. split; [exact Es|]. split; [exact E|].
  split; [exact Ht|]. split; [|split; [exact Hk|split; [|exists g0; exact Hg]]].
  - intros a b x y Hab Ea Eb. rewrite Ht in Ea, Eb.
    assert (a < S m) as Ha
      by (rewrite <- (length_seq (S m) (start + 1));
          apply nth_error_Some; congruence).
    assert (b < S m) as Hb
      by (rewrite <- (length_seq (S m) (start + 1));
          apply nth_error_Some; congruence).
    apply nth_error_nth with (d := 0) in Ea.
    apply nth_error_nth with (d := 0) in Eb.
    rewrite seq_nth in Ea, Eb by assumption. lia.
  - destruct (genXorKey_spec g0 (keyLen_of fnd) userCmd) as [r [g1 [E1 Hr]]].
    rewrite Hg in E1. injection E1 as <- <-.
    apply (Hr (key_of fnd) eq_refl).
Qed.

Lemma C8_witness :
  RandomGenLaws R /\ 2 <= length _randStrCharList /\ In 1 [1; 2; 3] /\
  length charList < 63 /\
  exists fnd,
    keySearch 63 1 charList (0 : rng) [] = Ok fnd /\
    tried_of fnd = [2] /\ length (key_of fnd) = 2.
Proof.
  assert (2 <= length _randStrCharList) as Htwo by (simpl; lia).
  assert (In 1 [1; 2; 3]) as Hp by (simpl; auto).
  assert (length charList < 63) as Hf by (simpl; lia).
  split; [exact example_laws|]. split; [exact Htwo|]. split; [exact Hp|].
  split; [exact Hf|].
  destruct (@C8_key_search_terminates R example_laws 1 charList 0 63
              Htwo Hp Hf)
    as [start [fnd [m [Es [E [_ [_ [_ [Hl _]]]]]]]]].
  injection Es as <-. exists fnd. split; [exact E|].
  assert (keySearch 63 1 charList (0 : rng) []
          = Ok (mkFound 2 (lit "pq") (9 : rng) [2])) as Ev by reflexivity.
  rewrite Ev in E. injection E as <-. split; reflexivity.
Defined.

(** C9.  Whenever [HexHash.mutate] returns, it has handed the mangler one
    line per character of the command, in order, and then the junk request.
    For every ASCII character of the command, whatever the other
    characters are, the line carries the recorded seed string and offset:
    the hex digest of the seed contains the two hex digits of the
    character's byte starting at that offset, and the slice of the digest
    at [offset .. offset + 2], which is what the emitted
    [cut -b offset+1-offset+2] extracts, is these two digits and reads as
    exactly the byte of the character. *)
Theorem C9_digest_slice_is_the_byte :
  forall (R : RandomGen) (H : Helpers) (D : Digest) (fuel : nat)
         (self self' : Self) (userCmd payload : str),
    HexHash.mutate fuel self userCmd = Ok (payload, self') ->
    exists lines,
      mangler self' =
      mangler self ++ map addPayloadLine lines ++ [addJunk] /\
      Forall2
        (fun ch line =>
           (ch < 128)%N ->
           exists randomString seedBytes index,
             utf8 randomString = Ok seedBytes /\
             let randomhash := md5_hexdigest seedBytes in
             hexchar ch = Ok [hex_digit (ch / 16); hex_digit (ch mod 16)] /\
             find randomhash [hex_digit (ch / 16); hex_digit (ch mod 16)]
             = Some index /\
             slice randomhash index (index + 2)
             = [hex_digit (ch / 16); hex_digit (ch mod 16)] /\
             cut_b (index + 1) (index + 2) randomhash
             = slice randomhash index (index + 2) /\
             hex_value (cut_b (index + 1) (index + 2) randomhash) = Some ch /\
             line = payloadLine randomString (index + 1) (index + 2))
        userCmd lines.
Proof.
  intros R H D fuel self self' userCmd payload E.
  unfold HexHash.mutate in E.
  destruct (encodeChars fuel self userCmd) as [self1| |] eqn:E1; simpl in E;
    try discriminate.
  injection E as _ <-.
  apply encodeChars_lines in E1. destruct E1 as [lines [Hl M]].
  exists lines. split.
  - simpl. rewrite M, <- app_assoc. reflexivity.
  - clear M. induction Hl as [|ch line cmd ls Hr Hl IH]; [constructor|].
    constructor; [|exact IH]. intros Hc.
    destruct (Hr Hc) as [seed [b [index [U [F [Hs [Ec [Hv El]]]]]]]].
    exists seed, b, index. split; [exact U|]. cbn zeta.
    split; [apply hexchar_ascii; exact Hc|].
    repeat (split; [assumption|]). exact El.
Qed.

Lemma C9_witness :
  @HexHash.mutate Numerals.R H D 30 (Numerals.self0 3 0) [828; 105]%N
  = Ok (getFinalPayload
          [addPayloadLine (payloadLine (lit "3") 2 3);
           addPayloadLine (payloadLine (lit "23") 3 4); addJunk],
        @mkSelf Numerals.R 3 (lit "/tmp/") None None None 24
          [addPayloadLine (payloadLine (lit "3") 2 3);
           addPayloadLine (payloadLine (lit "23") 3 4); addJunk]) /\
  hex_value (cut_b 3 4 (md5_hexdigest (lit "23"))) = Some 105%N /\
  exists lines : list str, length lines = 2.
Proof.
  assert (@HexHash.mutate Numerals.R H D 30 (Numerals.self0 3 0) [828; 105]%N
          = Ok (getFinalPayload
                  [addPayloadLine (payloadLine (lit "3") 2 3);
                   addPayloadLine (payloadLine (lit "23") 3 4); addJunk],
                @mkSelf Numerals.R 3 (lit "/tmp/") None None None 24
                  [addPayloadLine (payloadLine (lit "3") 2 3);
                   addPayloadLine (payloadLine (lit "23") 3 4); addJunk]))
    as E by (vm_compute; reflexivity).
  split; [exact E|]. split; [vm_compute; reflexivity|].
  destruct (@C9_digest_slice_is_the_byte Numerals.R H D _ _ _ _ _ E)
    as [lines [_ Hl]].
  exists lines. symmetry. exact (Forall2_length Hl).
Defined.

(** C10.  For the empty command [FolderGlob.mutate] hands the mangler one
    line only, the removal of the starting directory; no line creates that
    directory, writes or reads a file, or removes a chunk directory. *)
Theorem C10_FolderGlob_empty_command :
  forall (R : RandomGen) (H : Helpers) (self : Self),
    In (sizePref self) [1; 2; 3] ->
    let sd :=
      escapeQuotes (writeDir self ++ fst (randUniqueStr (randGen self))) in
    exists payload self',
      FolderGlob.mutate self [] = Ok (payload, self') /\
      mangler self' =
      mangler self ++
        [addPayloadLine (lit "* *:rmdir:^ ^'" ++ sd ++ lit "'END0* *")] /\
      payload = getFinalPayload (mangler self').
Proof.
  intros R H self Hp sd. unfold FolderGlob.mutate.
  destruct (setSizes_sectionSize_pos self [] Hp) as [ss [Hss Hpos]].
  rewrite Hss. simpl.
  destruct (Nat.eqb_spec ss 0); [lia|]. simpl.
  rewrite setSizes_startingDir. simpl.
  do 2 eexists. split; [reflexivity|]. simpl.
  rewrite setSizes_mangler. split; reflexivity.
Qed.

Lemma C10_witness :
  In (sizePref (self0 1 0)) [1; 2; 3] /\
  exists payload self',
    FolderGlob.mutate (self0 1 0) [] = Ok (payload, self') /\
    mangler self' = [addPayloadLine (lit "* *:rmdir:^ ^'/tmp/u0'END0* *")].
Proof.
  assert (In (sizePref (self0 1 0)) [1; 2; 3]) as Hp
    by (simpl; auto).
  split; [exact Hp|].
  destruct (@C10_FolderGlob_empty_command R H _ Hp)
    as [payload [self' [E [M _]]]].
  exists payload, self'. split; [exact E|exact M].
Defined.

(** * Further properties of the code *)

Import Staged GlobMore GlobBounds XorMore HexMore.

(** X1.  For a positive section size the chunks of line 77 partition the
    command: put together in the order of their indices they are the
    command, and every chunk is nonempty and at most [sectionSize] long. *)
Theorem X1_chunks_partition_the_command :
  forall (userCmd : str) (sectionSize : nat),
    0 < sectionSize ->
    concat (chunks userCmd sectionSize) = userCmd /\
    forall c, In c (chunks userCmd sectionSize) ->
              0 < length c <= sectionSize.
Proof.
  intros userCmd ss Hs. split.
  - apply chunks_concat. exact Hs.
  - intros c Hc. apply (@chunk_size userCmd ss c Hs Hc).
Qed.

Lemma X1_witness :
  0 < 3 /\
  concat (chunks (lit "ls -la") 3) = lit "ls -la" /\
  chunks (lit "ls -la /tmp") 4 = [lit "ls -"; lit "la /"; lit "tmp"].
Proof.
  assert (0 < 3) as Hs by lia.
  split; [exact Hs|]. split; [|reflexivity].
  apply (@X1_chunks_partition_the_command (lit "ls -la") 3 Hs).
Defined.

(** X2.  The section size chosen by [setSizes] bounds the number of chunks
    and the index width: at most 10 chunks and 4 wildcards at size
    preference 1, at most 100 chunks and 7 wildcards at preference 2, and at
    preference 3 one chunk per character. *)
Theorem X2_chunk_count_bounds :
  forall (R : RandomGen) (H : Helpers) (self : Self) (userCmd : str),
    In (sizePref self) [1; 2; 3] ->
    exists ss,
      sectionSize (setSizes self userCmd) = Some ss /\ 0 < ss /\
      (sizePref self = 1 ->
       length (chunks userCmd ss) <= 10 /\
       forall w, indexWidth (length (chunks userCmd ss)) = Ok w -> w <= 4) /\
      (sizePref self = 2 ->
       length (chunks userCmd ss) <= 100 /\
       forall w, indexWidth (length (chunks userCmd ss)) = Ok w -> w <= 7) /\
      (sizePref self = 3 ->
       chunks userCmd ss = map (fun c => [c]) userCmd /\
       length (chunks userCmd ss) = length userCmd).
Proof.
  intros R H self userCmd Hp.
  rewrite setSizes_sectionSize by exact Hp.
  eexists. split; [reflexivity|].
  assert (forall n k w, n <= k -> k <= 2 ^ w -> 0 < w ->
            forall v, indexWidth n = Ok v -> v <= w) as Hw.
  { intros n k w Hn Hk Hpos v E.
    destruct n as [|n]; [discriminate|].
    apply (@width_le (S n) w v); try lia. exact E. }
  destruct Hp as [E|[E|[E|[]]]]; rewrite <- E; cbn [Nat.eqb].
  - split; [lia|]. split; [|split; intros; discriminate].
    intros _.
    assert (length (chunks userCmd (length userCmd / 10 + 1)) <= 10) as Hc.
    { rewrite chunks_length by lia. apply count_le; [lia|].
      pose proof (Nat.div_mod_eq (length userCmd) 10).
      pose proof (Nat.mod_upper_bound (length userCmd) 10). lia. }
    split; [exact Hc|]. apply (Hw _ 10 4 Hc); simpl; lia.
  - split; [lia|]. split; [intros; discriminate|].
    split; [|intros; discriminate].
    intros _.
    assert (length (chunks userCmd (length userCmd / 100 + 1)) <= 100) as Hc.
    { rewrite chunks_length by lia. apply count_le; [lia|].
      pose proof (Nat.div_mod_eq (length userCmd) 100).
      pose proof (Nat.mod_upper_bound (length userCmd) 100). lia. }
    split; [exact Hc|]. apply (Hw _ 100 7 Hc); simpl; lia.
  - split; [lia|]. split; [intros; discriminate|].
    split; [intros; discriminate|]. intros _.
    rewrite chunks_singles. split; [reflexivity|apply length_map].
Qed.

Lemma X2_witness :
  In (sizePref (self0 1 0)) [1; 2; 3] /\
  exists ss,
    sectionSize (setSizes (self0 1 0) charList) = Some ss /\
    length (chunks charList ss) <= 10.
Proof.
  assert (In (sizePref (self0 1 0)) [1; 2; 3]) as Hp by (simpl; auto).
  split; [exact Hp|].
  destruct (@X2_chunk_count_bounds R H (self0 1 0) charList Hp)
    as [ss [Hs [_ [H1 _]]]].
  exists ss. split; [exact Hs|apply (proj1 (H1 eq_refl))].
Defined.

(** X3.  The dict built by lines 83-90 has exactly one line per chunk, in
    the order of the chunks, whatever the index width: no two chunks get the
    same line, so [update] never overwrites one, and the data of the line of
    chunk [i] is the escaped chunk [i]. *)
Theorem X3_one_line_per_chunk :
  forall (R : RandomGen) (H : Helpers) (workingDir : str)
         (cmdChars : list str) (cmdLogLen : nat),
    let d := printLines workingDir cmdChars cmdLogLen in
    length d = length cmdChars /\
    NoDup (map fst d) /\
    map fst d
    = map (fun i => printfLine workingDir i cmdLogLen)
          (seq 0 (length cmdChars)) /\
    map snd d = map (fun c => Some (escapeQuotes c)) cmdChars.
Proof.
  intros R H wd cmdChars w d. unfold d.
  split; [rewrite printLines_map, length_map, length_seq; reflexivity|].
  assert (map fst (printLines wd cmdChars w)
          = map (fun i => printfLine wd i w) (seq 0 (length cmdChars))) as E
    by (rewrite printLines_map, map_map; reflexivity).
  split; [|split; [exact E|apply printLines_data]].
  rewrite E. apply NoDup_map_injective; [|apply seq_NoDup].
  intros i j Hij. eapply printfLine_inj; exact Hij.
Qed.

(** X4.  For a nonempty command and a size preference of 1, 2 or 3,
    [FileGlob.mutate] returns a payload; it hands the mangler five calls,
    and the data that go with the file-writing lines are the escaped chunks
    of the command, in order. *)
Theorem X4_FileGlob_stages_the_command :
  forall (R : RandomGen) (H : Helpers) (self : Self) (userCmd : str),
    userCmd <> [] -> In (sizePref self) [1; 2; 3] ->
    exists ss payload self' calls,
      sectionSize (setSizes self userCmd) = Some ss /\
      FileGlob.mutate self userCmd = Ok (payload, self') /\
      payload = getFinalPayload (mangler self') /\
      mangler self' = mangler self ++ calls /\
      length calls = 5 /\
      written calls
      = map (fun c => Some (escapeQuotes c)) (chunks userCmd ss) /\
      concat (chunks userCmd ss) = userCmd.
Proof.
  intros R H self userCmd Hc Hp.
  destruct (setSizes_sectionSize_pos self userCmd Hp) as [ss [Hss Hpos]].
  unfold FileGlob.mutate.
  rewrite (@generate_ok _ _ (setSizes self userCmd) userCmd ss _ Hc Hss Hpos
             (setSizes_startingDir self userCmd)).
  cbn [bind]. simpl workingDir. cbn [attr bind].
  eexists ss, _, _, _. split; [exact Hss|]. split; [reflexivity|].
  split; [reflexivity|]. split.
  - simpl. rewrite setSizes_mangler, <- !app_assoc. reflexivity.
  - split; [reflexivity|]. split; [|apply chunks_concat; exact Hpos].
    cbn [written flat_map app]. rewrite app_nil_r. apply printLines_data.
Qed.

Lemma X4_witness :
  lit "id" <> [] /\ In (sizePref (self0 3 0)) [1; 2; 3] /\
  exists payload self',
    FileGlob.mutate (self0 3 0) (lit "id") = Ok (payload, self') /\
    length (mangler self') = 5 /\
    written (mangler self')
    = [Some (escapeQuotes (lit "i")); Some (escapeQuotes (lit "d"))].
Proof.
  assert (lit "id" <> []) as Hc by discriminate.
  assert (In (sizePref (self0 3 0)) [1; 2; 3]) as Hp by (simpl; auto).
  split; [exact Hc|]. split; [exact Hp|].
  destruct (@X4_FileGlob_stages_the_command R H (self0 3 0) (lit "id") Hc Hp)
    as [ss [payload [self' [calls [Hs [E [_ [M [Hl [Hw _]]]]]]]]]].
  exists payload, self'. split; [exact E|].
  injection Hs as <-. simpl in M. subst calls.
  split; [exact Hl|exact Hw].
Defined.

(** X5.  For a size preference of 1, 2 or 3 [FolderGlob.mutate] returns a
    payload for every command.  Each chunk of the command is staged alone
    by five calls (mkdir, the file-writing line, cat, rm, rmdir), in the
    working directory made from the starting directory and the unique
    string drawn for that chunk, in a file named "?" read back with the
    one-character pattern; the chunks come in order and the removal of the
    starting directory is the last call.  The data written are the escaped
    chunks, in order. *)
Theorem X5_FolderGlob_stages_each_chunk :
  forall (R : RandomGen) (H : Helpers) (self : Self) (userCmd : str),
    In (sizePref self) [1; 2; 3] ->
    let ss := if sizePref self =? 1 then length userCmd / 10 + 1
              else if sizePref self =? 2 then length userCmd / 100 + 1
              else 1 in
    let sd :=
      escapeQuotes (writeDir self ++ fst (randUniqueStr (randGen self))) in
    let g := snd (randUniqueStr (randGen self)) in
    let wds := chunkDirs sd g (length (chunks userCmd ss)) in
    exists payload self',
      sectionSize (setSizes self userCmd) = Some ss /\
      startingDir (setSizes self userCmd) = Some sd /\
      FolderGlob.mutate self userCmd = Ok (payload, self') /\
      payload = getFinalPayload (mangler self') /\
      length wds = length (chunks userCmd ss) /\
      mangler self' =
      mangler self ++
        flat_map (fun p => chunkCalls (fst p) (snd p))
                 (combine wds (chunks userCmd ss))
        ++ [addPayloadLine (FolderGlob.rmdirLine sd)] /\
      length (mangler self')
      = length (mangler self) + 5 * length (chunks userCmd ss) + 1 /\
      written (flat_map (fun p => chunkCalls (fst p) (snd p))
                        (combine wds (chunks userCmd ss)))
      = map (fun c => Some (escapeQuotes c)) (chunks userCmd ss).
Proof.
  intros R H self userCmd Hp ss sd g wds.
  destruct (FolderGlob_calls self userCmd Hp) as [payload [self' [E [Ep M]]]].
  fold ss sd g in M. fold wds in M.
  assert (length wds = length (chunks userCmd ss)) as Hl
    by (unfold wds; apply chunkDirs_length).
  exists payload, self'.
  split; [apply setSizes_sectionSize; exact Hp|].
  split; [apply setSizes_startingDir|].
  split; [exact E|]. split; [exact Ep|]. split; [exact Hl|].
  split; [exact M|]. split; [|apply written_chunkCalls; exact Hl].
  rewrite M, !length_app. cbn [length].
  assert (forall (ws : list str) (cs : list str),
             length ws = length cs ->
             length (flat_map (fun p => chunkCalls (fst p) (snd p))
                              (combine ws cs)) = 5 * length cs) as Hcount.
  { intros ws cs. revert ws.
    induction cs as [|c cs IH]; intros [|x ws] Hw; simpl in Hw;
      try discriminate; [reflexivity|].
    cbn [combine flat_map]. rewrite length_app, IH by lia.
    cbn [length chunkCalls]. lia. }
  rewrite Hcount by exact Hl. lia.
Qed.

Lemma X5_witness :
  In (sizePref (self0 1 0)) [1; 2; 3] /\
  exists payload self',
    FolderGlob.mutate (self0 1 0) (lit "id") = Ok (payload, self') /\
    mangler self' =
    chunkCalls (lit "/tmp/u0/u1") (lit "i")
      ++ chunkCalls (lit "/tmp/u0/u2") (lit "d")
      ++ [addPayloadLine (FolderGlob.rmdirLine (lit "/tmp/u0"))].
Proof.
  assert (In (sizePref (self0 1 0)) [1; 2; 3]) as Hp by (simpl; auto).
  split; [exact Hp|].
  destruct (@X5_FolderGlob_stages_each_chunk R H (self0 1 0) (lit "id") Hp)
    as [payload [self' [_ [_ [E [_ [_ [M _]]]]]]]].
  exists payload, self'. split; [exact E|]. rewrite M. reflexivity.
Defined.

(** X6.  With a size preference other than 1, 2 or 3, on an object whose
    section size was never set, [FileGlob.mutate] and [FolderGlob.mutate]
    raise [TypeError] ([range] gets [None] as its step) and
    [XorNonNull.mutate] raises [UnboundLocalError] ([keyLen] was never
    assigned), for every command. *)
Theorem X6_unknown_size_preference_raises :
  forall (R : RandomGen) (H : Helpers) (self : Self) (userCmd : str)
         (fuel : nat),
    ~ In (sizePref self) [1; 2; 3] -> sectionSize self = None ->
    FileGlob.mutate self userCmd = Raise TypeError /\
    FolderGlob.mutate self userCmd = Raise TypeError /\
    XorNonNull.mutate fuel self userCmd = Raise UnboundLocalError.
Proof.
  intros R H self userCmd fuel Hp Hnone.
  pose proof (setSizes_keeps self userCmd Hp) as Hk. rewrite Hnone in Hk.
  split; [|split].
  - unfold FileGlob.mutate, generate.
    rewrite setSizes_startingDir. cbn [attr bind].
    assert (forall wd, sectionSize (set_workingDir (setSizes self userCmd) wd)
                       = None) as -> by (intros; exact Hk).
    reflexivity.
  - unfold FolderGlob.mutate. rewrite Hk. reflexivity.
  - unfold XorNonNull.mutate.
    repeat match goal with
           | |- context [randGenVar ?g] => destruct (randGenVar g)
           end.
    unfold XorNonNull.initKeyLen.
    destruct (Nat.eqb_spec (sizePref self) 1) as [E|_];
      [exfalso; apply Hp; rewrite E; simpl; auto|].
    destruct (Nat.eqb_spec (sizePref self) 2) as [E|_];
      [exfalso; apply Hp; rewrite E; simpl; auto|].
    destruct (Nat.eqb_spec (sizePref self) 3) as [E|_];
      [exfalso; apply Hp; rewrite E; simpl; auto|].
    reflexivity.
Qed.

Lemma X6_witness :
  ~ In (sizePref (self0 4 0)) [1; 2; 3] /\
  sectionSize (self0 4 0) = None /\
  FileGlob.mutate (self0 4 0) (lit "id") = Raise TypeError /\
  XorNonNull.mutate 9 (self0 4 0) (lit "id") = Raise UnboundLocalError.
Proof.
  assert (~ In (sizePref (self0 4 0)) [1; 2; 3]) as Hp
    by (simpl; intros [E|[E|[E|[]]]]; discriminate).
  split; [exact Hp|]. split; [reflexivity|].
  destruct (@X6_unknown_size_preference_raises R H (self0 4 0) (lit "id") 9
              Hp eq_refl) as [E1 [_ E3]].
  split; [exact E1|exact E3].
Defined.

(** X7.  With a generator that obeys its contract, [genXorKey] never
    raises, for any command and key length; a key it returns has [keyLen]
    bytes, each of them a character of the character list. *)
Theorem X7_genXorKey_never_raises :
  forall (R : RandomGen) (L : RandomGenLaws R) (g : rng) (keyLen : nat)
         (userCmd : str),
    exists r g',
      genXorKey g keyLen userCmd = Ok (r, g') /\
      forall key, r = Some key ->
        length key = keyLen /\
        Forall (fun b => In b _randStrCharList) key.
Proof.
  intros R L g keyLen userCmd.
  destruct (genXorKey_spec g keyLen userCmd) as [r [g' [E Hr]]].
  exists r, g'. split; [exact E|].
  intros key ->. split; [apply (Hr key eq_refl)|].
  eapply genXorKey_chars; exact E.
Qed.

Lemma X7_witness :
  RandomGenLaws R /\
  genXorKey (0 : rng) 3 (lit "abc") = Ok (Some (lit "ijk"), (10 : rng)) /\
  exists r g', genXorKey (0 : rng) 3 (lit "abc") = Ok (r, g').
Proof.
  split; [exact example_laws|]. split; [reflexivity|].
  destruct (@X7_genXorKey_never_raises R example_laws 0 3 (lit "abc"))
    as [r [g' [E _]]].
  exists r, g'. exact E.
Defined.

(** X8.  The retry loop never tries a length beyond the length of the
    command (or beyond its first length, when that is larger): the key
    length it returns is at most [max(start + 1, len(command))].  At size
    preference 3 the first attempt succeeds, with a key one byte longer
    than the command. *)
Theorem X8_key_length_is_bounded :
  forall (R : RandomGen) (L : RandomGenLaws R) (sizePref : nat)
         (userCmd : str) (g : rng) (fuel : nat),
    2 <= length _randStrCharList ->
    In sizePref [1; 2; 3] ->
    length userCmd < fuel ->
    exists start fnd,
      initKeyLen sizePref userCmd = Ok start /\
      keySearch fuel start userCmd g [] = Ok fnd /\
      start < keyLen_of fnd <= Nat.max (start + 1) (length userCmd) /\
      (sizePref = 3 ->
       keyLen_of fnd = length userCmd + 1 /\
       tried_of fnd = [length userCmd + 1]).
Proof.
  intros R L sizePref userCmd g fuel Htwo Hp Hfuel.
  assert (exists start, initKeyLen sizePref userCmd = Ok start) as [start Es].
  { destruct Hp as [<-|[<-|[<-|[]]]]; eexists; reflexivity. }
  destruct (@keySearch_returns R L userCmd Htwo fuel start g [])
    as [fnd E]; [lia|lia|].
  pose proof (keySearch_bound _ Htwo _ _ _ _ E) as Hb.
  destruct (keySearch_tried _ _ _ _ _ E) as [m [Ht [Hk _]]].
  exists start, fnd. split; [exact Es|]. split; [exact E|].
  split; [lia|]. intros ->. injection Es as <-.
  assert (m = 0) as -> by lia.
  split; [lia|]. rewrite Ht. reflexivity.
Qed.

Lemma X8_witness :
  RandomGenLaws R /\ 2 <= length _randStrCharList /\ In 3 [1; 2; 3] /\
  length (lit "ls -la") < 7 /\
  exists fnd,
    keySearch 7 6 (lit "ls -la") (0 : rng) [] = Ok fnd /\
    keyLen_of fnd = 7.
Proof.
  assert (2 <= length _randStrCharList) as Htwo by (simpl; lia).
  assert (In 3 [1; 2; 3]) as Hp by (simpl; auto).
  assert (length (lit "ls -la") < 7) as Hf by (simpl; lia).
  split; [exact example_laws|]. split; [exact Htwo|]. split; [exact Hp|].
  split; [exact Hf|].
  destruct (@X8_key_length_is_bounded R example_laws 3 (lit "ls -la") 0 7
              Htwo Hp Hf) as [start [fnd [Es [E [_ H3]]]]].
  injection Es as <-. exists fnd. split; [exact E|].
  apply (proj1 (H3 eq_refl)).
Defined.

(** X9.  For a command of single-byte characters and a key of [keyLen]
    bytes, lines 237-239 never raise and store one byte per character;
    XOR-ing the stored byte at [i] with the key byte at [i mod keyLen], as
    the emitted loop does, gives the character at [i] back. *)
Theorem X9_xor_round_trip :
  forall (userCmd : str) (xorKeyBytes : bytes) (keyLen : nat),
    ascii_str userCmd -> 0 < keyLen -> length xorKeyBytes = keyLen ->
    exists cmdBytes,
      xorBytes userCmd xorKeyBytes keyLen = Ok cmdBytes /\
      length cmdBytes = length userCmd /\
      forall i c, nth_error userCmd i = Some c ->
        exists x b,
          nth_error cmdBytes i = Some x /\
          nth_error xorKeyBytes (i mod keyLen) = Some b /\
          N.lxor x b = c.
Proof.
  intros userCmd key keyLen Ha Hk Hl.
  destruct (@xorBytes_ascii userCmd key keyLen Ha Hk Hl)
    as [cmdBytes [E [Hlen _]]].
  exists cmdBytes. split; [exact E|]. split; [exact Hlen|].
  intros i c Ei.
  apply (@xor_decode userCmd key keyLen cmdBytes Ha Hk Hl E i c Ei).
Qed.

Lemma X9_witness :
  ascii_str (lit "ls -la") /\ 0 < 2 /\ length (lit "ab") = 2 /\
  xorBytes (lit "ls -la") (lit "ab") 2 = Ok [13; 17; 65; 79; 13; 3]%N /\
  exists cmdBytes, xorBytes (lit "ls -la") (lit "ab") 2 = Ok cmdBytes.
Proof.
  assert (ascii_str (lit "ls -la")) as Ha by (repeat constructor).
  assert (0 < 2) as Hk by lia.
  split; [exact Ha|]. split; [exact Hk|]. split; [reflexivity|].
  split; [reflexivity|].
  destruct (@X9_xor_round_trip (lit "ls -la") (lit "ab") 2 Ha Hk eq_refl)
    as [cmdBytes [E _]].
  exists cmdBytes. exact E.
Defined.

(** X10.  With a generator that obeys its contract and a character list of
    at least two characters, [XorNonNull.mutate] returns a payload for
    every command of single-byte characters at size preference 1, 2 or 3,
    once its fuel exceeds the length of the command.  It hands the mangler
    eight calls, the first of which carries the escaped data and the
    escaped key; the data are nonzero ASCII bytes, one per character, and
    XOR-ing the data byte at [i] with the key byte at [i mod len(key)]
    gives the character at [i] back. *)
Theorem X10_XorNonNull_mutate_returns :
  forall (R : RandomGen) (L : RandomGenLaws R) (H : Helpers) (self : Self)
         (userCmd : str) (fuel : nat),
    2 <= length _randStrCharList ->
    In (sizePref self) [1; 2; 3] ->
    ascii_str userCmd ->
    length userCmd < fuel ->
    exists payload self' calls key data cmdVar keyVar,
      XorNonNull.mutate fuel self userCmd = Ok (payload, self') /\
      payload = getFinalPayload (mangler self') /\
      mangler self' = mangler self ++ calls /\
      length calls = 8 /\
      hd_error calls =
      Some (addLinesInRandomOrder
              (update
                 (update [] (lit "? ?" ++ cmdVar ++ lit "='DATA'* *END0")
                         (Some (escapeQuotes data)))
                 (lit "? ?" ++ keyVar ++ lit "='" ++ escapeQuotes key
                    ++ lit "'* *END0") None)) /\
      key <> [] /\
      Forall (fun b => In b _randStrCharList) key /\
      length data = length userCmd /\
      Forall (fun x => (0 < x < 128)%N) data /\
      forall i c, nth_error userCmd i = Some c ->
        exists x b,
          nth_error data i = Some x /\
          nth_error key (i mod length key) = Some b /\
          N.lxor x b = c.
Proof.
  intros R L H self userCmd fuel Htwo Hp Ha Hfuel.
  unfold XorNonNull.mutate.
  destruct (randGenVar (randGen self)) as [cmdVar g1].
  destruct (randGenVar g1) as [keyVar g2].
  destruct (randGenVar g2) as [cmdCharVar g3].
  destruct (randGenVar g3) as [keyCharVar g4].
  destruct (randGenVar g4) as [iteratorVar g5].
  assert (exists start, initKeyLen (sizePref self) userCmd = Ok start)
    as [start Es].
  { destruct Hp as [<-|[<-|[<-|[]]]]; eexists; reflexivity. }
  rewrite Es. cbn [bind].
  destruct (@keySearch_returns R L userCmd Htwo fuel start g5 [])
    as [fnd E]; [lia|lia|].
  rewrite E. cbn [bind].
  destruct (keySearch_tried _ _ _ _ _ E) as [m [_ [Hk [Hne [g0 Hg]]]]].
  destruct (genXorKey_spec g0 (keyLen_of fnd) userCmd) as [r [g' [E1 Hr]]].
  rewrite Hg in E1. injection E1 as <- <-.
  destruct (Hr (key_of fnd) eq_refl) as [Hlen _].
  pose proof (genXorKey_chars _ _ _ Hg) as Hchars.
  assert (0 < keyLen_of fnd) as Hpos by lia.
  destruct (@xorBytes_data R L userCmd g0 (keyLen_of fnd) (key_of fnd)
              (rng_of fnd) Ha Hpos Hg) as [data [Ex [Hl Hd]]].
  rewrite Ex. cbn [bind].
  assert (ascii_str (key_of fnd)) as Hka.
  { unfold ascii_str. eapply Forall_impl; [|exact Hchars].
    intros c. apply charList_byte. }
  assert (ascii_str data) as Hda.
  { unfold ascii_str. eapply Forall_impl; [|exact Hd].
    intros x Hx. cbv beta in Hx. lia. }
  rewrite (utf8_decode_ascii Hka). cbn [bind].
  rewrite (utf8_decode_ascii Hda). cbn [bind].
  eexists _, _, _, (key_of fnd), data, cmdVar, keyVar.
  split; [reflexivity|]. split; [reflexivity|]. split.
  { simpl. rewrite <- !app_assoc. reflexivity. }
  split; [reflexivity|]. split; [reflexivity|]. split; [exact Hne|].
  split; [exact Hchars|]. split; [exact Hl|]. split; [exact Hd|].
  intros i c Ei. rewrite Hlen.
  apply (@xor_decode userCmd (key_of fnd) (keyLen_of fnd) data Ha
           Hpos Hlen Ex i c Ei).
Qed.

Lemma X10_witness :
  RandomGenLaws R /\ 2 <= length _randStrCharList /\
  In (sizePref (self0 1 0)) [1; 2; 3] /\ ascii_str (lit "ls -la") /\
  length (lit "ls -la") < 7 /\
  exists payload self',
    XorNonNull.mutate 7 (self0 1 0) (lit "ls -la") = Ok (payload, self') /\
    length (mangler self') = 8.
Proof.
  assert (2 <= length _randStrCharList) as Htwo by (simpl; lia).
  assert (In (sizePref (self0 1 0)) [1; 2; 3]) as Hp by (simpl; auto).
  assert (ascii_str (lit "ls -la")) as Ha by (repeat constructor).
  assert (length (lit "ls -la") < 7) as Hf by (simpl; lia).
  split; [exact example_laws|]. split; [exact Htwo|]. split; [exact Hp|].
  split; [exact Ha|]. split; [exact Hf|].
  destruct (@X10_XorNonNull_mutate_returns R example_laws H (self0 1 0)
              (lit "ls -la") 7 Htwo Hp Ha Hf)
    as [payload [self' [calls [key [data [cv [kv [E [_ [M [Hl _]]]]]]]]]]].
  exists payload, self'. split; [exact E|].
  rewrite M. simpl. exact Hl.
Defined.

(** X11.  For a character of two UTF-8 bytes (code points 128 to 2047)
    [hexchar] has four hex digits and the search looks for all four, but the
    emitted [cut] range still takes two: whenever the loop body returns, the
    line it emits extracts the first byte of the character's encoding only,
    so the second byte is lost. *)
Theorem X11_two_byte_character_loses_a_byte :
  forall (R : RandomGen) (H : Helpers) (D : Digest) (fuel : nat)
         (self self' : Self) (ch : N),
    (128 <= ch < 2048)%N ->
    encodeChar fuel self ch = Ok self' ->
    exists randomString seedBytes index,
      utf8 randomString = Ok seedBytes /\
      let randomhash := md5_hexdigest seedBytes in
      let b1 := N.lor 192 (N.shiftr ch 6) in
      let b2 := N.lor 128 (N.land ch 63) in
      utf8_char ch = Ok [b1; b2] /\
      find randomhash (hex [b1; b2]) = Some index /\
      mangler self' =
      mangler self ++
        [addPayloadLine (payloadLine randomString (index + 1) (index + 2))] /\
      hex_value (cut_b (index + 1) (index + 2) randomhash) = Some b1.
Proof.
  intros R H D fuel self self' ch [Hlo Hhi] E.
  assert (utf8_char ch
          = Ok [N.lor 192 (N.shiftr ch 6); N.lor 128 (N.land ch 63)]) as Hu.
  { unfold utf8_char.
    destruct (N.ltb_spec ch 128); [lia|].
    destruct (N.ltb_spec ch 2048); [reflexivity|lia]. }
  assert (hexchar ch
          = Ok (hex [N.lor 192 (N.shiftr ch 6); N.lor 128 (N.land ch 63)]))
    as Hh by (unfold hexchar; rewrite Hu; reflexivity).
  eapply encodeChar_any in E; [|exact Hh|discriminate].
  destruct E as [seed [b [index [U [F M]]]]].
  exists seed, b, index. split; [exact U|]. cbn zeta.
  split; [exact Hu|]. split; [exact F|]. split; [exact M|].
  unfold cut_b. replace (index + 1 - 1) with index by lia.
  rewrite (@slice_shorter (md5_hexdigest b) index 2 4 ltac:(lia)).
  pose proof (find_slice _ _ F) as Hs.
  change (length (hex [N.lor 192 (N.shiftr ch 6); N.lor 128 (N.land ch 63)]))
    with 4 in Hs.
  rewrite Hs. cbn [hex flat_map app firstn].
  apply hex_value_byte. apply first_byte_small. exact Hhi.
Qed.

Lemma X11_witness :
  (128 <= 828 < 2048)%N /\
  @encodeChar Numerals.R D 9 (Numerals.self0 3 0) 828
  = Ok (@mkSelf Numerals.R 3 (lit "/tmp/") None None None 4
          [addPayloadLine (payloadLine (lit "3") 2 3)]) /\
  utf8_char 828 = Ok [204; 188]%N /\
  hex_value (cut_b 2 3 (md5_hexdigest (lit "3"))) = Some 204%N.
Proof.
  assert (128 <= 828 < 2048)%N as Hc by lia.
  assert (@encodeChar Numerals.R D 9 (Numerals.self0 3 0) 828
          = Ok (@mkSelf Numerals.R 3 (lit "/tmp/") None None None 4
                  [addPayloadLine (payloadLine (lit "3") 2 3)])) as E
    by (vm_compute; reflexivity).
  split; [exact Hc|]. split; [exact E|].
  destruct (@X11_two_byte_character_loses_a_byte Numerals.R H D _ _ _ _ Hc E)
    as [seed [b [index [_ _]]]].
  split; vm_compute; reflexivity.
Defined.

(** X12.  For every command that UTF-8 can encode and a key of [keyLen]
    bytes, lines 237-239 never raise; they change the first
    [len(userCmd)] bytes only, so when the command has multi-byte
    characters the bytes from position [len(userCmd)] on are stored as
    they are, not XOR-ed. *)
Theorem X12_xor_leaves_the_tail :
  forall (userCmd : str) (plain xorKeyBytes : bytes) (keyLen : nat),
    0 < keyLen -> length xorKeyBytes = keyLen ->
    utf8 userCmd = Ok plain ->
    exists cmdBytes,
      xorBytes userCmd xorKeyBytes keyLen = Ok cmdBytes /\
      length cmdBytes = length plain /\
      length userCmd <= length plain /\
      (forall j, length userCmd <= j ->
                 nth_error cmdBytes j = nth_error plain j) /\
      (forall j x, j < length userCmd -> nth_error plain j = Some x ->
                   nth_error cmdBytes j
                   = Some (N.lxor x (nth (j mod keyLen) xorKeyBytes 0%N))).
Proof.
  intros userCmd plain key keyLen Hk Hl U.
  pose proof (utf8_length _ U) as Hlen.
  unfold xorBytes. rewrite U. cbn [bind].
  destruct (@xorLoop_spec key keyLen Hk Hl (length userCmd) 0 plain)
    as [out [E [Ho Hj]]]; [lia|].
  exists out. split; [exact E|]. split; [exact Ho|]. split; [exact Hlen|].
  split.
  - intros j Hge. rewrite Hj.
    assert ((j <? 0 + length userCmd) = false) as ->
      by (apply Nat.ltb_ge; lia).
    rewrite andb_false_r. reflexivity.
  - intros j x Hlt Ex. rewrite Hj, Ex.
    assert ((0 <=? j) = true) as -> by (apply Nat.leb_le; lia).
    assert ((j <? 0 + length userCmd) = true) as ->
      by (apply Nat.ltb_lt; lia).
    reflexivity.
Qed.

Lemma X12_witness :
  0 < 2 /\ length (lit "ab") = 2 /\
  utf8 [233; 97; 98]%N = Ok [195; 169; 97; 98]%N /\
  xorBytes [233; 97; 98]%N (lit "ab") 2 = Ok [162; 203; 0; 98]%N /\
  exists cmdBytes,
    xorBytes [233; 97; 98]%N (lit "ab") 2 = Ok cmdBytes /\
    nth_error cmdBytes 3 = Some 98%N.
Proof.
  assert (0 < 2) as Hk by lia.
  split; [exact Hk|]. split; [reflexivity|]. split; [reflexivity|].
  split; [reflexivity|].
  destruct (@X12_xor_leaves_the_tail [233; 97; 98]%N [195; 169; 97; 98]%N
              (lit "ab") 2 Hk eq_refl eq_refl)
    as [cmdBytes [E [_ [_ [Ht _]]]]].
  exists cmdBytes. split; [exact E|].
  rewrite Ht by (simpl; lia). reflexivity.
Defined.
